(** * Forklift content script: a shallow embedding of [content/content.js]

    The script watches an album review page for the paywall bar, fetches
    the JSON rendition of the review, rebuilds markup from [review.body]
    and patches the body and the score back into the page.

    Conventions of the embedding.
    - A JavaScript string is a [string]: a sequence of code units, here the
      code units below 256 (Latin-1).  White space, word characters, digits
      and lower-casing are those of ECMAScript restricted to that range.
    - A JavaScript number is a decimal [Num]: mantissa and number of
      fractional digits.  Every number the script reads is a decimal
      literal (a JSON number or a token of the displayed score), and
      comparison with [0] and [10] and printing of such literals agree
      with the binary64 behaviour for literals of at most 15 significant
      digits whose magnitude lies in [1e-6, 1e21).
    - A value delivered by [JSON.parse] is a [JSValue]; the properties of
      an object are listed in the order [Object.entries] enumerates them.
    - Exceptions are the [Throw] results of [Result]; effectful code runs
      in the monad [M] over the live document and the trace of host calls.
    - Recursive functions follow the structure of the value.  The limit
      of the engine's call stack, which ends a recursion over a very
      deeply nested value with a [RangeError], is not part of the
      embedding.
    - Host services the script only calls ([JSON.parse], [Sanitizer],
      [DOMParser]) are the fields of a [Host]. *)

From Stdlib Require Import String Ascii List ZArith Lia Bool Arith.
From Stdlib Require Import DecimalString.
Import ListNotations.
Open Scope string_scope.
Open Scope nat_scope.
Set Warnings "-register-all".

(** ** Strings *)

Definition dquote : ascii := ascii_of_nat 34.

Definition code (c : ascii) : nat := nat_of_ascii c.

(** [\s] and the characters stripped by [trim()], below 256. *)
Definition isSpace (c : ascii) : bool :=
  let n := code c in
  ((9 <=? n) && (n <=? 13)) || (n =? 32) || (n =? 160).

(** [\d] *)
Definition isDigit (c : ascii) : bool :=
  let n := code c in (48 <=? n) && (n <=? 57).

(** [\w]: the characters between which [\b] sees no boundary. *)
Definition isWord (c : ascii) : bool :=
  let n := code c in
  isDigit c || ((65 <=? n) && (n <=? 90)) || ((97 <=? n) && (n <=? 122))
  || (n =? 95).

Definition lowerChar (c : ascii) : ascii :=
  let n := code c in
  if ((65 <=? n) && (n <=? 90))
     || ((192 <=? n) && (n <=? 222) && negb (n =? 215))
  then ascii_of_nat (n + 32) else c.

(** [s.toLowerCase()] *)
Fixpoint toLowerCase (s : string) : string :=
  match s with
  | EmptyString => EmptyString
  | String c s' => String (lowerChar c) (toLowerCase s')
  end.

(** [s.startsWith(p)] *)
Definition startsWith (p s : string) : bool := String.prefix p s.

(** [s.includes(sub)] *)
Fixpoint includes (sub s : string) : bool :=
  startsWith sub s ||
  match s with
  | EmptyString => false
  | String _ s' => includes sub s'
  end.

(** [s.replace(/c/g, r)] for a one-character pattern [c] and a
    replacement [r] without [$]. *)
Fixpoint replaceAll (c : ascii) (r : string) (s : string) : string :=
  match s with
  | EmptyString => EmptyString
  | String x s' =>
      (if Ascii.eqb x c then r else String x EmptyString) ++ replaceAll c r s'
  end.

(** [s.replace(/\s+/g, ' ')]: [inRun] tells that the previous character
    belonged to the white-space run being replaced. *)
Fixpoint collapseFrom (inRun : bool) (s : string) : string :=
  match s with
  | EmptyString => EmptyString
  | String c s' =>
      if isSpace c
      then (if inRun then collapseFrom true s'
            else String " " (collapseFrom true s'))
      else String c (collapseFrom false s')
  end.

Definition collapseSpaces (s : string) : string := collapseFrom false s.

Fixpoint trimStart (s : string) : string :=
  match s with
  | EmptyString => EmptyString
  | String c s' => if isSpace c then trimStart s' else s
  end.

Fixpoint trimEnd (s : string) : string :=
  match s with
  | EmptyString => EmptyString
  | String c s' =>
      match trimEnd s' with
      | EmptyString => if isSpace c then EmptyString else String c EmptyString
      | t => String c t
      end
  end.

(** [s.trim()] *)
Definition trim (s : string) : string := trimEnd (trimStart s).

(** [Array.prototype.join] on strings. *)
Definition join (sep : string) (l : list string) : string :=
  String.concat sep l.

(** ** Exceptions *)

Inductive Exn : Type :=
| TypeError (msg : string)
| SyntaxError (msg : string)
| Error (msg : string).

Inductive Result (A : Type) : Type :=
| Ok (a : A)
| Throw (e : Exn).
Arguments Ok {A} a.
Arguments Throw {A} e.

Definition rbind {A B} (r : Result A) (f : A -> Result B) : Result B :=
  match r with
  | Ok a => f a
  | Throw e => Throw e
  end.

Declare Scope result_scope.
Delimit Scope result_scope with result.
Notation "x <- r ;; k" := (rbind r (fun x => k))
  (at level 61, r at next level, right associativity) : result_scope.

(** Evaluates the calls of a [map] callback left to right; the first
    exception ends the loop. *)
Fixpoint sequence {A} (l : list (Result A)) : Result (list A) :=
  match l with
  | [] => Ok []
  | r :: l' =>
      match r with
      | Throw e => Throw e
      | Ok a =>
          match sequence l' with
          | Ok t => Ok (a :: t)
          | Throw e => Throw e
          end
      end
  end.

(** ** Numbers *)

(** The number [mantissa / 10 ^ scale]. *)
Record Num : Type := mkNum { mantissa : Z; scale : nat }.

Definition zero : Num := mkNum 0 0.
Definition ten : Num := mkNum 10 0.

(** Drops the trailing zeros of the fraction. *)
Fixpoint normalize (m : Z) (s : nat) : Num :=
  match s with
  | O => mkNum m 0
  | S s' => if (m mod 10 =? 0)%Z then normalize (m / 10) s' else mkNum m s
  end.

(** [a <= b] on numbers. *)
Definition numLe (a b : Num) : bool :=
  (mantissa a * 10 ^ Z.of_nat (scale b)
   <=? mantissa b * 10 ^ Z.of_nat (scale a))%Z.

(** [a === b] on numbers. *)
Definition numEq (a b : Num) : bool :=
  (mantissa a * 10 ^ Z.of_nat (scale b)
   =? mantissa b * 10 ^ Z.of_nat (scale a))%Z.

Definition digitsOfN (n : N) : string := NilZero.string_of_uint (N.to_uint n).

Fixpoint zeros (k : nat) : string :=
  match k with
  | O => EmptyString
  | S k' => String "0" (zeros k')
  end.

(** [Number::toString] in positional notation. *)
Definition numToString (n : Num) : string :=
  let c := normalize (mantissa n) (scale n) in
  let a := Z.abs (mantissa c) in
  let p := (10 ^ Z.of_nat (scale c))%Z in
  let sign := if (mantissa c <? 0)%Z then "-" else "" in
  let int := digitsOfN (Z.to_N (a / p)) in
  match scale c with
  | O => sign ++ int
  | S _ =>
      let frac := digitsOfN (Z.to_N (a mod p)) in
      sign ++ int ++ "." ++ zeros (scale c - String.length frac) ++ frac
  end.

Definition digitVal (c : ascii) : Z := Z.of_nat (code c - 48).

(** Reads the longest run of decimal digits: the accumulated value, the
    number of digits read and the rest. *)
Fixpoint scanDigits (acc : Z) (cnt : nat) (s : string) : Z * nat * string :=
  match s with
  | String c s' =>
      if isDigit c then scanDigits (10 * acc + digitVal c) (S cnt) s'
      else (acc, cnt, s)
  | EmptyString => (acc, cnt, s)
  end.

(** [parseFloat(s)] on plain decimal literals: leading white space, a
    sign, digits and a fraction.  [None] is [NaN].  Exponents and
    [Infinity] are left out: the script only passes digits and a dot. *)
Definition parseFloat (s : string) : option Num :=
  let s0 := trimStart s in
  let '(neg, s1) :=
    match s0 with
    | String "-" t => (true, t)
    | String "+" t => (false, t)
    | _ => (false, s0)
    end in
  let '(i, ni, s2) := scanDigits 0 0 s1 in
  let '(m, nf) :=
    match s2 with
    | String "." t => let '(v, n, _) := scanDigits i 0 t in (v, n)
    | _ => (i, O)
    end in
  match ni + nf with
  | O => None
  | S _ => Some (normalize (if neg then (- m)%Z else m) nf)
  end.

(** ** Regular expressions

    A backtracking matcher for the constructs the script's patterns use.
    [run r prev s k] matches [r] at the head of [s], [prev] being the
    character before it, and hands the position reached to [k];
    alternatives are tried in order and the first overall success wins,
    as in ECMAScript. *)

Inductive regex : Type :=
| REps
| RChar (c : ascii)
| RClass (p : ascii -> bool)
| RPlusClass (p : ascii -> bool)
| RSeq (r1 r2 : regex)
| RAlt (r1 r2 : regex)
| ROpt (r : regex)
| RBol
| REol
| RWordB.

Definition Cont : Type := option ascii -> string -> option string.

Definition isWordO (c : option ascii) : bool :=
  match c with
  | Some x => isWord x
  | None => false
  end.

Definition headO (s : string) : option ascii :=
  match s with
  | String c _ => Some c
  | EmptyString => None
  end.

(** [[p]+], greedy: the longest run first, then shorter ones. *)
Fixpoint plusClass (p : ascii -> bool) (s : string) (k : Cont)
  : option string :=
  match s with
  | String c s' =>
      if p c then
        match plusClass p s' k with
        | Some r => Some r
        | None => k (Some c) s'
        end
      else None
  | EmptyString => None
  end.

Fixpoint run (r : regex) (prev : option ascii) (s : string) (k : Cont)
  : option string :=
  match r with
  | REps => k prev s
  | RChar c =>
      match s with
      | String x s' => if Ascii.eqb x c then k (Some x) s' else None
      | EmptyString => None
      end
  | RClass p =>
      match s with
      | String x s' => if p x then k (Some x) s' else None
      | EmptyString => None
      end
  | RPlusClass p => plusClass p s k
  | RSeq r1 r2 => run r1 prev s (fun prev' s' => run r2 prev' s' k)
  | RAlt r1 r2 =>
      match run r1 prev s k with
      | Some x => Some x
      | None => run r2 prev s k
      end
  | ROpt r1 =>
      match run r1 prev s k with
      | Some x => Some x
      | None => k prev s
      end
  | RBol => match prev with None => k prev s | Some _ => None end
  | REol => match s with EmptyString => k prev s | String _ _ => None end
  | RWordB => if xorb (isWordO prev) (isWordO (headO s)) then k prev s else None
  end.

(** A match at the head of [s]: the text left after it. *)
Definition matchAt (r : regex) (prev : option ascii) (s : string)
  : option string :=
  run r prev s (fun _ rest => Some rest).

Fixpoint takeStr (n : nat) (s : string) : string :=
  match n, s with
  | S n', String c s' => String c (takeStr n' s')
  | _, _ => EmptyString
  end.

(** [s.match(r)] without the [g] flag: the leftmost match, as the matched
    text.  In the patterns below the only group spans all but zero-width
    assertions, so this text is also [m[1]]. *)
Fixpoint searchFrom (r : regex) (prev : option ascii) (s : string)
  : option string :=
  match matchAt r prev s with
  | Some rest => Some (takeStr (String.length s - String.length rest) s)
  | None =>
      match s with
      | String c s' => searchFrom r (Some c) s'
      | EmptyString => None
      end
  end.

Definition regexMatch (r : regex) (s : string) : option string :=
  searchFrom r None s.

(** [r.test(s)] *)
Definition regexTest (r : regex) (s : string) : bool :=
  match regexMatch r s with Some _ => true | None => false end.

(** The literal [s] as a pattern. *)
Fixpoint RLit (s : string) : regex :=
  match s with
  | EmptyString => REps
  | String c s' => RSeq (RChar c) (RLit s')
  end.

(** ** Page classifier and score parser *)

(** [/^\/reviews\/albums\/[^/]+\/?$/] *)
Definition albumReviewRe : regex :=
  RSeq RBol
    (RSeq (RLit "/reviews/albums/")
       (RSeq (RPlusClass (fun c => negb (Ascii.eqb c "/")))
          (RSeq (ROpt (RChar "/")) REol))).

Definition isAlbumReviewPage (pathname : string) : bool :=
  regexTest albumReviewRe pathname.

(** [(10\.0|10|\d\.\d)] *)
Definition scoreTokenRe : regex :=
  RAlt (RLit "10.0")
    (RAlt (RLit "10")
       (RSeq (RClass isDigit) (RSeq (RChar ".") (RClass isDigit)))).

(** [/^(10\.0|10|\d\.\d)$/] *)
Definition exactScoreRe : regex := RSeq RBol (RSeq scoreTokenRe REol).

(** [/\b(10\.0|10|\d\.\d)\b/] *)
Definition boundedScoreRe : regex := RSeq RWordB (RSeq scoreTokenRe RWordB).

Definition parseScoreText (text : string) : option Num :=
  let cleaned := trim (collapseSpaces text) in
  let m :=
    match regexMatch exactScoreRe cleaned with
    | Some g => Some g
    | None => regexMatch boundedScoreRe cleaned
    end in
  match m with
  | None => None
  | Some g =>
      match parseFloat g with
      | None => None
      | Some n => if numLe zero n && numLe n ten then Some n else None
      end
  end.

(** ** Values of the fetched document *)

Inductive JSValue : Type :=
| JUndefined
| JNull
| JBool (b : bool)
| JNum (n : Num)
| JStr (s : string)
| JArr (items : list JSValue)
| JObj (props : list (string * JSValue)).

(** [o[k]] on the own properties of an object. *)
Fixpoint lookup (k : string) (props : list (string * JSValue))
  : option JSValue :=
  match props with
  | [] => None
  | (k', v) :: ps => if String.eqb k' k then Some v else lookup k ps
  end.

(** [k in o] for a key that no built-in prototype defines. *)
Definition hasKey (k : string) (props : list (string * JSValue)) : bool :=
  match lookup k props with Some _ => true | None => false end.

(** [ToBoolean] *)
Definition truthy (v : JSValue) : bool :=
  match v with
  | JUndefined | JNull => false
  | JBool b => b
  | JNum n => negb (mantissa n =? 0)%Z
  | JStr s => negb (String.eqb s "")
  | JArr _ | JObj _ => true
  end.

(** [v.k] for a key that no built-in prototype defines: a [TypeError] on
    [null] and [undefined], [undefined] on the other primitives, on
    arrays and on objects without the key. *)
Definition getProp (v : JSValue) (k : string) : Result JSValue :=
  match v with
  | JUndefined | JNull => Throw (TypeError "cannot read property")
  | JObj props =>
      match lookup k props with Some x => Ok x | None => Ok JUndefined end
  | _ => Ok JUndefined
  end.

(** [v && v.k] *)
Definition andGet (v : JSValue) (k : string) : Result JSValue :=
  if truthy v then getProp v k else Ok v.

(** [String(v)].  An array prints its elements joined by commas, [null]
    and [undefined] elements as nothing.  A plain object prints through
    [Object.prototype.toString]; when it has an own property [toString],
    which in parsed JSON is never callable, the conversion finds no
    method returning a primitive and raises a [TypeError]. *)
Fixpoint ToString (v : JSValue) : Result string :=
  match v with
  | JUndefined => Ok "undefined"
  | JNull => Ok "null"
  | JBool b => Ok (if b then "true" else "false")
  | JNum n => Ok (numToString n)
  | JStr s => Ok s
  | JArr items =>
      match sequence (map (fun x =>
                             match x with
                             | JUndefined | JNull => Ok ""
                             | _ => ToString x
                             end) items) with
      | Ok l => Ok (join "," l)
      | Throw e => Throw e
      end
  | JObj props =>
      if hasKey "toString" props
      then Throw (TypeError "Cannot convert object to primitive value")
      else Ok "[object Object]"
  end.

(** ** Markup reconstruction *)

Definition isAdNode (tag attrs : JSValue) : bool :=
  match tag with
  | JStr t =>
      if includes "ad" (toLowerCase t) then true
      else
        match attrs with
        | JObj props =>
            if hasKey "position" props then
              match lookup "position" props with
              | Some (JStr p) => includes "ad" (toLowerCase p)
              | _ => false
              end
            else false
        | _ => false
        end
  | _ => false
  end.

Definition escapeText (s : string) : string :=
  replaceAll ">" "&gt;" (replaceAll "<" "&lt;" (replaceAll "&" "&amp;" s)).

Definition escapeAttr (s : string) : string :=
  replaceAll dquote "&quot;" (escapeText s).

Definition quoted (s : string) : string :=
  String dquote s ++ String dquote EmptyString.

(** One [k="v"] entry of the opening tag. *)
Definition renderAttr (kv : string * JSValue) : Result string :=
  match ToString (snd kv) with
  | Ok sv => Ok (fst kv ++ "=" ++ quoted (escapeAttr sv))
  | Throw e => Throw e
  end.

(** The part of [bodyArrayToHtml] after [attrs] and [children] are told
    apart; [childHtml] is [children.map(bodyArrayToHtml)], evaluated
    after the attributes. *)
Definition renderElement (tag : string) (attrs : list (string * JSValue))
    (childHtml : Result (list string)) : Result string :=
  if isAdNode (JStr tag) (JObj attrs) then Ok ""
  else
    match sequence (map renderAttr
             (filter (fun kv => negb (String.eqb (fst kv) "isExternal"))
                attrs)) with
    | Throw e => Throw e
    | Ok l =>
        let attrStr := join " " l in
        let open :=
          if negb (String.eqb attrStr "")
          then "<" ++ tag ++ " " ++ attrStr ++ ">"
          else "<" ++ tag ++ ">" in
        match childHtml with
        | Throw e => Throw e
        | Ok hs => Ok (open ++ join "" hs ++ "</" ++ tag ++ ">")
        end
    end.

Fixpoint bodyArrayToHtml (node : JSValue) : Result string :=
  match node with
  | JStr s => Ok (escapeText s)
  | JArr (tag :: rest) =>
      match tag with
      | JStr t =>
          match rest with
          | JObj attrs :: children =>
              renderElement t attrs (sequence (map bodyArrayToHtml children))
          | children =>
              renderElement t [] (sequence (map bodyArrayToHtml children))
          end
      | _ => Ok ""
      end
  | _ => Ok ""
  end.

(** ** The live document *)

Inductive Node : Type :=
| Text (data : string)
| Comment (data : string)
| Element (localName : string) (attributes : list (string * string))
    (filter : string) (childNodes : list Node).

(** A position in a tree: the child indices from the root down. *)
Definition Path : Type := list nat.

Inductive Selector : Type :=
| AttrContains (name value : string)   (* [name*="value"] *)
| AttrEquals (name value : string).    (* [name="value"] *)

Fixpoint getAttribute (name : string) (attrs : list (string * string))
  : option string :=
  match attrs with
  | [] => None
  | (k, v) :: rest => if String.eqb k name then Some v else getAttribute name rest
  end.

Definition isElement (n : Node) : bool :=
  match n with Element _ _ _ _ => true | _ => false end.

(** [el.matches(sel)] *)
Definition matchesSel (sel : Selector) (n : Node) : bool :=
  match n with
  | Element _ attrs _ _ =>
      match sel with
      | AttrContains name value =>
          match getAttribute name attrs with
          | Some v => negb (String.eqb value "") && includes value v
          | None => false
          end
      | AttrEquals name value =>
          match getAttribute name attrs with
          | Some v => String.eqb v value
          | None => false
          end
      end
  | _ => false
  end.

(** The first element in document order among [n] and its descendants
    that matches [sel], with its position below [n]. *)
Fixpoint queryNode (sel : Selector) (n : Node) : option (Path * Node) :=
  match n with
  | Element _ _ _ cs =>
      if matchesSel sel n then Some ([], n)
      else
        (fix queryList (l : list Node) (i : nat) : option (Path * Node) :=
           match l with
           | [] => None
           | c :: l' =>
               match queryNode sel c with
               | Some (p, e) => Some (i :: p, e)
               | None => queryList l' (S i)
               end
           end) cs 0
  | _ => None
  end.

(** [document.querySelector(sel)], the document being its root element. *)
Definition querySelector (sel : Selector) (doc : Node) : option (Path * Node) :=
  queryNode sel doc.

(** [el.querySelector(sel)]: the descendants of [el] only. *)
Definition querySelectorIn (sel : Selector) (el : Node) : option (Path * Node) :=
  match el with
  | Element _ _ _ cs =>
      (fix queryList (l : list Node) (i : nat) : option (Path * Node) :=
         match l with
         | [] => None
         | c :: l' =>
             match queryNode sel c with
             | Some (p, e) => Some (i :: p, e)
             | None => queryList l' (S i)
             end
         end) cs 0
  | _ => None
  end.

Fixpoint getAt (n : Node) (p : Path) : option Node :=
  match p with
  | [] => Some n
  | i :: p' =>
      match n with
      | Element _ _ _ cs =>
          match nth_error cs i with
          | Some c => getAt c p'
          | None => None
          end
      | _ => None
      end
  end.

Fixpoint updateNth {A} (i : nat) (f : A -> A) (l : list A) : list A :=
  match l, i with
  | [], _ => []
  | x :: l', O => f x :: l'
  | x :: l', S i' => x :: updateNth i' f l'
  end.

(** Applies [f] to the node at [p]. *)
Fixpoint updateAt (f : Node -> Node) (p : Path) (n : Node) : Node :=
  match p with
  | [] => f n
  | i :: p' =>
      match n with
      | Element t a st cs => Element t a st (updateNth i (updateAt f p') cs)
      | _ => n
      end
  end.

(** [document.body]: the first [body] or [frameset] child of the root. *)
Definition documentBody (doc : Node) : option Node :=
  match doc with
  | Element _ _ _ cs =>
      find (fun c =>
              match c with
              | Element t _ _ _ => String.eqb t "body" || String.eqb t "frameset"
              | _ => false
              end) cs
  | _ => None
  end.

(** The getter of [node.textContent]. *)
Fixpoint textContent (n : Node) : string :=
  match n with
  | Text d => d
  | Comment d => d
  | Element _ _ _ cs =>
      join "" (map (fun c =>
                      match c with
                      | Comment _ => ""
                      | _ => textContent c
                      end) cs)
  end.

(** The setter of [el.textContent]. *)
Definition setTextContent (s : string) (n : Node) : Node :=
  match n with
  | Text _ => Text s
  | Comment _ => Comment s
  | Element t a st _ =>
      Element t a st (if String.eqb s "" then [] else [Text s])
  end.

(** [el.style.filter = v] *)
Definition setFilter (v : string) (n : Node) : Node :=
  match n with
  | Element t a _ cs => Element t a v cs
  | _ => n
  end.

(** [el.replaceChildren(...nodes)] *)
Definition replaceChildren (nodes : list Node) (n : Node) : Node :=
  match n with
  | Element t a st _ => Element t a st nodes
  | _ => n
  end.

(** [while (el.lastElementChild) el = el.lastElementChild]: the position,
    below [n], of the element the loop ends on. *)
Fixpoint deepestLast (n : Node) : Path :=
  match n with
  | Element _ _ _ cs =>
      match
        (fix lastElem (l : list Node) (i : nat) : option Path :=
           match l with
           | [] => None
           | c :: l' =>
               match lastElem l' (S i) with
               | Some p => Some p
               | None =>
                   match c with
                   | Element _ _ _ _ => Some (i :: deepestLast c)
                   | _ => None
                   end
               end
           end) cs 0
      with
      | Some p => p
      | None => []
      end
  | _ => []
  end.

(** ** Host services and effects *)

Record Host : Type := mkHost {
  (** [JSON.parse]: [None] is a [SyntaxError]. *)
  JSON_parse : string -> option JSValue;
  (** [new Sanitizer().sanitizeFor(element, html)] where the host has a
      [Sanitizer]: the child nodes of the result, [None] for [null]. *)
  Sanitizer : option (string -> string -> option (list Node));
  (** [new DOMParser().parseFromString(html, type).body.childNodes] *)
  DOMParser_parse : string -> string -> list Node
}.

Inductive Effect : Type :=
| FetchRequest                       (* [fetch] of the page with format=json *)
| Warn (msg : string)                (* [console.warn], its first argument *)
| SanitizeFor (element html : string)
| ParseFromString (html type : string)
| Observe                            (* [observer.observe(document.body, ...)] *)
| Disconnect                         (* [observer.disconnect()] *)
| PaywallCheck                       (* entry of [runPaywallCheck] *)
| Uncaught (e : Exn).

Record World : Type := mkWorld { document : Node; trace : list Effect }.

Definition M (A : Type) : Type := World -> Result A * World.

Definition ret {A} (a : A) : M A := fun w => (Ok a, w).

Definition bind {A B} (m : M A) (f : A -> M B) : M B :=
  fun w =>
    match m w with
    | (Ok a, w') => f a w'
    | (Throw e, w') => (Throw e, w')
    end.

Definition liftR {A} (r : Result A) : M A := fun w => (r, w).

Definition emit (e : Effect) : M unit :=
  fun w => (Ok tt, mkWorld (document w) (trace w ++ [e])%list).

Definition getDocument : M Node := fun w => (Ok (document w), w).

Definition modifyDocument (f : Node -> Node) : M unit :=
  fun w => (Ok tt, mkWorld (f (document w)) (trace w)).

(** [m.catch(h)] *)
Definition catch {A} (m : M A) (h : Exn -> M A) : M A :=
  fun w =>
    match m w with
    | (Throw e, w') => h e w'
    | r => r
    end.

Declare Scope m_scope.
Delimit Scope m_scope with M.
Notation "x <- m ;; k" := (bind m (fun x => k))
  (at level 61, m at next level, right associativity) : m_scope.
Notation "m ;; k" := (bind m (fun _ => k))
  (at level 61, right associativity) : m_scope.

Definition warn (msg : string) : M unit := emit (Warn msg).

Open Scope m_scope.

(** ** Remote content fetcher *)

(** How the request of [fetchReviewJson] ends: [fetch] rejects, or a
    response arrives whose body [r.text()] reads or fails to read. *)
Inductive FetchOutcome : Type :=
| NetworkFailure (e : Exn)
| Response (ok : bool) (statusText : string) (body : Result string).

(** The callbacks [fetchReviewJson] chains on the request: the promise it
    returns resolves with [Ok] and rejects with [Throw]. *)
Definition fetchReviewJson (h : Host) (o : FetchOutcome) : M JSValue :=
  match o with
  | NetworkFailure e => liftR (Throw e)
  | Response ok statusText body =>
      if negb ok then liftR (Throw (Error statusText))
      else
        text <- liftR body ;;
        let trimmed := trim text in
        if String.eqb trimmed "" || startsWith "<" trimmed then
          warn "[Forklift] Response is not JSON (likely HTML). First 200 chars:" ;;
          liftR (Throw (Error "Server returned non-JSON response"))
        else
          match JSON_parse h trimmed with
          | Some v => ret v
          | None =>
              warn "[Forklift] JSON parse failed. First 200 chars:" ;;
              liftR (Throw (SyntaxError "JSON.parse"))
          end
  end.

(** ** DOM patcher *)

Definition scoreBoxSel : Selector := AttrContains "class" "ScoreBoxWrapper".
Definition bodyWrapperSel : Selector := AttrEquals "data-testid" "BodyWrapper".

Definition updatePageWithScore (score : JSValue) : M unit :=
  match score with
  | JUndefined | JNull => ret tt
  | _ =>
      doc <- getDocument ;;
      match querySelector scoreBoxSel doc with
      | None => ret tt
      | Some (p, wrapper) =>
          let el := (p ++ deepestLast wrapper)%list in
          s <- liftR (ToString score) ;;
          modifyDocument (updateAt (setTextContent s) el) ;;
          modifyDocument (updateAt (setFilter "blur(0px)") el)
      end
  end.

(** [data && data.review && data.review.body] *)
Definition reviewBody (data : JSValue) : Result JSValue :=
  (r <- andGet data "review" ;; andGet r "body")%result.

(** [data && data.review && data.review.headerProps && ... .score] *)
Definition reviewScore (data : JSValue) : Result JSValue :=
  (r <- andGet data "review" ;;
   hp <- andGet r "headerProps" ;;
   mr <- andGet hp "musicRating" ;;
   andGet mr "score")%result.

Definition isArray (v : JSValue) : bool :=
  match v with JArr _ => true | _ => false end.

(** The body replacement of [enhancePaywalledPage]: the markup goes
    through the [Sanitizer] where the host has one, else through the
    [DOMParser], and the nodes obtained replace the children of the body
    wrapper at [p]. *)
Definition replaceBody (h : Host) (html : string) (p : Path) : M unit :=
  match Sanitizer h with
  | Some sanitizeFor =>
      emit (SanitizeFor "div" html) ;;
      match sanitizeFor "div" html with
      | Some nodes => modifyDocument (updateAt (replaceChildren nodes) p)
      | None => ret tt
      end
  | None =>
      emit (ParseFromString html "text/html") ;;
      modifyDocument
        (updateAt (replaceChildren (DOMParser_parse h html "text/html")) p)
  end.

(** The [then] callback of [enhancePaywalledPage]. *)
Definition enhanceThen (h : Host) (data : JSValue) : M unit :=
  body <- liftR (reviewBody data) ;;
  if negb (isArray body) then warn "[Forklift] review.body is not an array"
  else
    html <- liftR (bodyArrayToHtml body) ;;
    doc <- getDocument ;;
    match querySelector bodyWrapperSel doc with
    | None => warn "[Forklift] BodyWrapper not found"
    | Some (p, _) =>
        replaceBody h html p ;;
        score <- liftR (reviewScore data) ;;
        updatePageWithScore score
    end.

(** The [catch] callback of [enhancePaywalledPage]. *)
Definition enhanceCatch (err : Exn) : M unit :=
  warn "[Forklift] Failed to fetch review JSON".

(** What [enhancePaywalledPage] runs once its request has ended. *)
Definition enhanceSettled (h : Host) (o : FetchOutcome) : M unit :=
  catch (data <- fetchReviewJson h o ;; enhanceThen h data) enhanceCatch.

(** ** Paywall detector *)

Definition scoreCircleSel : Selector := AttrContains "class" "ScoreCircle".
Definition barLinkSel : Selector :=
  AttrContains "class" "InContentBarrierFloatingBarLink".
Definition barSel : Selector := AttrContains "class" "InContentBarrierFloatingBar".

Definition getPitchforkScore (pathname : string) (doc : Node) : option Num :=
  if negb (isAlbumReviewPage pathname) then None
  else
    match querySelector scoreCircleSel doc with
    | None => None
    | Some (_, el) => parseScoreText (trim (textContent el))
    end.

Definition isSome {A} (o : option A) : bool :=
  match o with Some _ => true | None => false end.

Definition isPaywalled (pathname : string) (doc : Node) : bool :=
  if isSome (querySelector barLinkSel doc) then true
  else
    match getPitchforkScore pathname doc with
    | Some n => if numEq n zero then true else false
    | None => false
    end.

(** ** Paywall-drop watcher *)

Definition hasPaywallBar (root : option Node) : bool :=
  match root with
  | Some el =>
      if negb (isElement el) then false
      else matchesSel barSel el || isSome (querySelectorIn barSel el)
  | None => false
  end.

Record MutationRecord : Type := mkRecord { addedNodes : list Node }.

(** The script's state on a page: whether the observer is connected, how
    many requests await their end, the document and the trace. *)
Record Page : Type := mkPage {
  connected : bool;
  pending : nat;
  world : World
}.

Definition log (e : Effect) (pg : Page) : Page :=
  mkPage (connected pg) (pending pg)
    (mkWorld (document (world pg)) (trace (world pg) ++ [e])%list).

(** The synchronous part of [enhancePaywalledPage]: the request leaves. *)
Definition enhancePaywalledPage (pg : Page) : Page :=
  let pg' := log FetchRequest pg in
  mkPage (connected pg') (S (pending pg')) (world pg').

Definition runPaywallCheck (pathname : string) (pg : Page) : Page :=
  let pg' := log PaywallCheck pg in
  if isPaywalled pathname (document (world pg')) then enhancePaywalledPage pg'
  else pg'.

Definition disconnect (pg : Page) : Page :=
  let pg' := log Disconnect pg in
  mkPage false (pending pg') (world pg').

(** The inner loop of the observer callback: [true] at the first added
    element that holds the bar. *)
Fixpoint scanAdded (nodes : list Node) : bool :=
  match nodes with
  | [] => false
  | node :: rest =>
      if negb (isElement node) then scanAdded rest
      else if hasPaywallBar (Some node) then true
      else scanAdded rest
  end.

Fixpoint scanMutations (mutations : list MutationRecord) : bool :=
  match mutations with
  | [] => false
  | m :: rest => if scanAdded (addedNodes m) then true else scanMutations rest
  end.

Definition observerCallback (pathname : string)
    (mutations : list MutationRecord) (pg : Page) : Page :=
  if scanMutations mutations then runPaywallCheck pathname (disconnect pg)
  else pg.

(** The body of the script, run once when the page has loaded. *)
Definition main (pathname : string) (doc : Node) : Page :=
  let idle := mkPage false 0 (mkWorld doc []) in
  if negb (isAlbumReviewPage pathname) then idle
  else if hasPaywallBar (documentBody doc) then runPaywallCheck pathname idle
  else
    match documentBody doc with
    | Some _ => mkPage true 0 (mkWorld doc [Observe])
    | None => log (Uncaught (TypeError "observe: not a Node")) idle
    end.

(** What the page does to the script afterwards: it changes the document
    and reports the added nodes, or the pending request ends.  Each event
    carries the document as it is at that time. *)
Inductive PageEvent : Type :=
| Mutated (doc : Node) (mutations : list MutationRecord)
| Settled (doc : Node) (outcome : FetchOutcome).

Definition withDocument (doc : Node) (pg : Page) : Page :=
  mkPage (connected pg) (pending pg) (mkWorld doc (trace (world pg))).

(** A disconnected observer is not called; an outcome reaches the script
    only for a request it has sent. *)
Definition step (h : Host) (pathname : string) (pg : Page) (ev : PageEvent)
  : Page :=
  match ev with
  | Mutated doc mutations =>
      let pg' := withDocument doc pg in
      if connected pg then observerCallback pathname mutations pg' else pg'
  | Settled doc outcome =>
      let pg' := withDocument doc pg in
      match pending pg with
      | O => pg'
      | S n =>
          mkPage (connected pg) n (snd (enhanceSettled h outcome (world pg')))
      end
  end.

Definition pageLoad (h : Host) (pathname : string) (doc : Node)
    (events : list PageEvent) : Page :=
  fold_left (step h pathname) events (main pathname doc).

(** ** Notions the properties are stated with *)

(** Replaces every character [c] of [s] by [f c]. *)
Fixpoint substChars (f : ascii -> string) (s : string) : string :=
  match s with
  | EmptyString => EmptyString
  | String c s' => f c ++ substChars f s'
  end.

Definition textEntity (c : ascii) : string :=
  if Ascii.eqb c "&" then "&amp;"
  else if Ascii.eqb c "<" then "&lt;"
  else if Ascii.eqb c ">" then "&gt;"
  else String c EmptyString.

Definition attrEntity (c : ascii) : string :=
  if Ascii.eqb c dquote then "&quot;" else textEntity c.

(** The name contains "ad" in any case. *)
Definition mentionsAd (s : string) : Prop :=
  includes "ad" (toLowerCase s) = true.

(** A structured node that is an advertisement: by its tag name, or by
    the [position] attribute of its attribute set. *)
Inductive Advert : JSValue -> Prop :=
| ad_by_tag (t : string) (rest : list JSValue) :
    mentionsAd t -> Advert (JArr (JStr t :: rest))
| ad_by_position (tag : JSValue) (attrs : list (string * JSValue))
    (children : list JSValue) (p : string) :
    lookup "position" attrs = Some (JStr p) -> mentionsAd p ->
    Advert (JArr (tag :: JObj attrs :: children)).

(** The markup of a sequence of children: [children.map(f).join('')]. *)
Definition childMarkup (children : list JSValue) : Result string :=
  match sequence (map bodyArrayToHtml children) with
  | Ok hs => Ok (join "" hs)
  | Throw e => Throw e
  end.

Definition isStr (v : JSValue) : bool :=
  match v with JStr _ => true | _ => false end.

Definition scriptSample : string :=
  "<script>&" ++ String dquote "</script>".

(** An attribute value whose conversion to a string fails. *)
Definition unprintableNode : JSValue :=
  JArr [JStr "p"; JObj [("x", JObj [("toString", JNull)])]].

Definition printableNode : JSValue :=
  JArr [JStr "a";
        JObj [("href", JStr "x&y"); ("isExternal", JBool true);
              ("n", JArr [JNum (mkNum 15 1); JNull; JArr [JBool false]])];
        JStr "t<"; JArr [JStr "b"; JStr "u"]].

Definition adByTag : JSValue :=
  JArr [JStr "AdSlot"; JObj [("x", JObj [("toString", JNull)])]; JStr "buy"].

Definition adByPosition : JSValue :=
  JArr [JStr "div"; JObj [("position", JStr "in-content-AD-1")];
        JArr [JStr "p"; JStr "buy"]].

(** [el.lastElementChild], with its index among the children. *)
Fixpoint lastElementFrom (l : list Node) (i : nat) : option (nat * Node) :=
  match l with
  | [] => None
  | c :: l' =>
      match lastElementFrom l' (S i) with
      | Some r => Some r
      | None => if isElement c then Some (i, c) else None
      end
  end.

Definition lastElementChild (n : Node) : option (nat * Node) :=
  match n with
  | Element _ _ _ cs => lastElementFrom cs 0
  | _ => None
  end.

(** The nodes the host turns the markup into: [None] where the
    [Sanitizer] answers [null]. *)
Definition hostParse (h : Host) (html : string) : option (list Node) :=
  match Sanitizer h with
  | Some sanitizeFor => sanitizeFor "div" html
  | None => Some (DOMParser_parse h html "text/html")
  end.

(** The host call that hands the markup over. *)
Definition parseCall (h : Host) (html : string) : Effect :=
  match Sanitizer h with
  | Some _ => SanitizeFor "div" html
  | None => ParseFromString html "text/html"
  end.

(** The document after the body replacement at [p]. *)
Definition bodyReplaced (h : Host) (html : string) (p : Path) (doc : Node)
  : Node :=
  match hostParse h html with
  | Some nodes => updateAt (replaceChildren nodes) p doc
  | None => doc
  end.

(** The document after the score restore at [el]. *)
Definition scoreRestored (s : string) (el : Path) (doc : Node) : Node :=
  updateAt (setFilter "blur(0px)") el (updateAt (setTextContent s) el doc).

(** ** The scenario of the specification and other samples *)

Definition scenarioBody : JSValue := JArr [JArr [JStr "p"; JArr [JStr "text"]]].

Definition scenarioPayload : JSValue :=
  JObj [("review",
         JObj [("body", scenarioBody);
               ("headerProps",
                JObj [("musicRating", JObj [("score", JNum (mkNum 78 1))])])])].

Definition scenarioText : string :=
  "{" ++ quoted "review" ++ ":{" ++ quoted "body" ++ ":[[" ++ quoted "p"
  ++ ",[" ++ quoted "text" ++ "]]]," ++ quoted "headerProps" ++ ":{"
  ++ quoted "musicRating" ++ ":{" ++ quoted "score" ++ ":7.8}}}}".

Definition scoreCircle : Node :=
  Element "div" [("class", "ScoreCircle-sc-1")] "" [Text " 0.0 "].

Definition scoreBox : Node :=
  Element "div" [("class", "ScoreBoxWrapper-iBCGfZ")] ""
    [Element "span" [] "" [Text "Score"];
     Element "div" [] ""
       [Text "; ";
        Element "p" [("class", "Rating-bk")] "blur(6px)" [Text "0.0"];
        Comment "end"]].

Definition bodyWrapper : Node :=
  Element "div" [("data-testid", "BodyWrapper")] ""
    [Element "p" [] "" [Text "The first lines of the review"]].

Definition paywallBar : Node :=
  Element "div" [("class", "InContentBarrierFloatingBar-x")] ""
    [Element "a" [("class", "InContentBarrierFloatingBarLink-y")] ""
       [Text "Subscribe"]].

Definition pageOf (content : list Node) : Node :=
  Element "html" [] "" [Element "head" [] "" []; Element "body" [] "" content].

Definition scenarioDoc : Node := pageOf [scoreCircle; scoreBox; bodyWrapper].

Definition scenarioDocBar : Node :=
  pageOf [scoreCircle; scoreBox; bodyWrapper; paywallBar].

(** A page with the score box and without the body wrapper. *)
Definition docNoBody : Node := pageOf [scoreCircle; scoreBox].

(** A page with the body wrapper and without the score box. *)
Definition docNoScore : Node := pageOf [scoreCircle; bodyWrapper].

Definition scenarioPath : string := "/reviews/albums/some-album/".

(** A host for the samples: no [Sanitizer]; its [JSON.parse] knows the
    text of the scenario; its [DOMParser] gives no node for the empty
    markup and takes any other markup for the data of a text node. *)
Definition stubHost : Host :=
  mkHost
    (fun s => if String.eqb s scenarioText then Some scenarioPayload else None)
    None
    (fun html _ => if String.eqb html "" then [] else [Text html]).

(** The same with a [Sanitizer] that answers as the [DOMParser] does. *)
Definition sanitizingHost : Host :=
  mkHost (JSON_parse stubHost)
    (Some (fun _ html => Some (DOMParser_parse stubHost html "text/html")))
    (DOMParser_parse stubHost).

Definition scenarioEvents : list PageEvent :=
  [Mutated scenarioDocBar [mkRecord [Text "x"; paywallBar]];
   Settled scenarioDocBar (Response true "OK" (Ok scenarioText))].

(** ** Reading traces *)

Definition isThrow {A} (r : Result A) : bool :=
  match r with Throw _ => true | Ok _ => false end.

Definition isWarn (e : Effect) : bool :=
  match e with Warn _ => true | _ => false end.

Definition isFetch (e : Effect) : bool :=
  match e with FetchRequest => true | _ => false end.

Definition isCheck (e : Effect) : bool :=
  match e with PaywallCheck => true | _ => false end.

Definition isDisconnect (e : Effect) : bool :=
  match e with Disconnect => true | _ => false end.

Definition isObserve (e : Effect) : bool :=
  match e with Observe => true | _ => false end.

(** The effects that belong to neither the watcher nor the request. *)
Definition isQuiet (e : Effect) : bool :=
  match e with
  | Warn _ | SanitizeFor _ _ | ParseFromString _ _ | Uncaught _ => true
  | _ => false
  end.

Definition count (p : Effect -> bool) (t : list Effect) : nat :=
  List.length (filter p t).

(** The ways the watcher can have started and fired. *)
Definition watcherPrefixes : list (list Effect) :=
  [ [];
    [PaywallCheck];
    [PaywallCheck; FetchRequest];
    [Observe; Disconnect; PaywallCheck];
    [Observe; Disconnect; PaywallCheck; FetchRequest] ].

Inductive Shape : Page -> Prop :=
| shape_observing (doc : Node) :
    Shape (mkPage true 0 (mkWorld doc [Observe]))
| shape_done (doc : Node) (pre t : list Effect) (n : nat) :
    In pre watcherPrefixes -> n <= count isFetch pre ->
    forallb isQuiet t = true ->
    Shape (mkPage false n (mkWorld doc (pre ++ t)%list)).

(** [m] only adds quiet effects to the trace. *)
Definition quietly {A} (m : M A) : Prop :=
  forall w, exists t,
    trace (snd (m w)) = (trace w ++ t)%list /\ forallb isQuiet t = true.

Definition htmlResponse : FetchOutcome :=
  Response true "OK" (Ok "
  <!DOCTYPE html><html></html>").

(** The scenario goes on: the bar is inserted once more and a second
    outcome is announced. *)
Definition insistentEvents : list PageEvent :=
  (scenarioEvents
   ++ [Mutated scenarioDocBar [mkRecord [paywallBar]];
       Settled scenarioDocBar (Response true "OK" (Ok scenarioText))])%list.

(** ** Score tokens *)

(** A text of the form [10.0], [10] or digit, dot, digit. *)
Definition scoreToken (tok : string) : bool :=
  String.eqb tok "10.0" || String.eqb tok "10" ||
  match tok with
  | String d1 (String c (String d2 EmptyString)) =>
      isDigit d1 && Ascii.eqb c "." && isDigit d2
  | _ => false
  end.

(** The last character of [s], or [d] when [s] is empty. *)
Fixpoint lastOr (d : option ascii) (s : string) : option ascii :=
  match s with
  | EmptyString => d
  | String c s' => lastOr (Some c) s'
  end.

(** [s] is [pre ++ tok ++ post] where [tok] is a score token with a word
    boundary on either side. *)
Definition TokenAt (s pre tok post : string) : Prop :=
  s = pre ++ tok ++ post /\ scoreToken tok = true /\
  isWordO (lastOr None pre) = false /\ isWordO (headO post) = false.

(** What [parseScoreText] matches its patterns against. *)
Definition cleanedText (text : string) : string := trim (collapseSpaces text).

(** ** Induction on values and nodes *)

Section JSValue_induction.
Variable P : JSValue -> Prop.
Hypothesis Hundef : P JUndefined.
Hypothesis Hnull : P JNull.
Hypothesis Hbool : forall b, P (JBool b).
Hypothesis Hnum : forall n, P (JNum n).
Hypothesis Hstr : forall s, P (JStr s).
Hypothesis Harr : forall items, Forall P items -> P (JArr items).
Hypothesis Hobj :
  forall props, Forall (fun kv => P (snd kv)) props -> P (JObj props).

Fixpoint JSValue_nested_ind (v : JSValue) : P v :=
  match v with
  | JUndefined => Hundef
  | JNull => Hnull
  | JBool b => Hbool b
  | JNum n => Hnum n
  | JStr s => Hstr s
  | JArr items =>
      Harr items
        ((fix go (l : list JSValue) : Forall P l :=
            match l with
            | [] => Forall_nil _
            | x :: l' => Forall_cons x (JSValue_nested_ind x) (go l')
            end) items)
  | JObj props =>
      Hobj props
        ((fix go (l : list (string * JSValue))
            : Forall (fun kv => P (snd kv)) l :=
            match l with
            | [] => Forall_nil _
            | kv :: l' => Forall_cons kv (JSValue_nested_ind (snd kv)) (go l')
            end) props)
  end.
End JSValue_induction.

Section Node_induction.
Variable P : Node -> Prop.
Hypothesis Htext : forall d, P (Text d).
Hypothesis Hcomment : forall d, P (Comment d).
Hypothesis Helement :
  forall t a st cs, Forall P cs -> P (Element t a st cs).

Fixpoint Node_nested_ind (n : Node) : P n :=
  match n with
  | Text d => Htext d
  | Comment d => Hcomment d
  | Element t a st cs =>
      Helement t a st cs
        ((fix go (l : list Node) : Forall P l :=
            match l with
            | [] => Forall_nil _
            | x :: l' => Forall_cons x (Node_nested_ind x) (go l')
            end) cs)
  end.
End Node_induction.

(** ** Notions for further properties *)

(** Every character of [s] satisfies [p]. *)
Fixpoint allChars (p : ascii -> bool) (s : string) : bool :=
  match s with
  | EmptyString => true
  | String c s' => p c && allChars p s'
  end.

Definition notSlash (c : ascii) : bool := negb (Ascii.eqb c "/").

Definition eventDocument (ev : PageEvent) : Node :=
  match ev with
  | Mutated doc _ => doc
  | Settled doc _ => doc
  end.

(** The document of the last event, [doc] when there is none. *)
Definition latestDocument (doc : Node) (events : list PageEvent) : Node :=
  fold_left (fun _ ev => eventDocument ev) events doc.

(** An event that cannot make the observer fire. *)
Definition barFree (ev : PageEvent) : bool :=
  match ev with
  | Mutated _ mutations => negb (scanMutations mutations)
  | Settled _ _ => true
  end.

Definition isMutated (ev : PageEvent) : bool :=
  match ev with Mutated _ _ => true | Settled _ _ => false end.

(** A bar without the link, and an open page showing its score. *)
Definition plainBar : Node :=
  Element "div" [("class", "InContentBarrierFloatingBar-x")] "" [Text "Offer"].

Definition openCircle : Node :=
  Element "div" [("class", "ScoreCircle-sc-1")] "" [Text "7.8"].

Definition openDoc : Node := pageOf [openCircle; bodyWrapper].

Definition openDocBar : Node := pageOf [openCircle; bodyWrapper; plainBar].

(** [c] occurs in [s]. *)
Fixpoint occurs (c : ascii) (s : string) : bool :=
  match s with
  | EmptyString => false
  | String x s' => Ascii.eqb x c || occurs c s'
  end.

(** The characters [escapeText] replaces, and those [escapeAttr] does. *)
Definition textSpecial (c : ascii) : bool :=
  Ascii.eqb c "&" || Ascii.eqb c "<" || Ascii.eqb c ">".

Definition attrSpecial (c : ascii) : bool :=
  Ascii.eqb c dquote || textSpecial c.

Definition notExternal (kv : string * JSValue) : bool :=
  negb (String.eqb (fst kv) "isExternal").

(** Two paths that part at some index: neither node is inside the other. *)
Fixpoint disjointPaths (p q : Path) : bool :=
  match p, q with
  | i :: p', j :: q' => if Nat.eqb i j then disjointPaths p' q' else true
  | _, _ => false
  end.

(** A payload whose score cannot be converted to a string. *)
Definition oddScorePayload : JSValue :=
  JObj [("review",
         JObj [("body", JArr [JStr "p"; JStr "text"]);
               ("headerProps",
                JObj [("musicRating",
                       JObj [("score", JObj [("toString", JNull)])])])])].

(** A payload whose body cannot be rendered. *)
Definition oddBodyPayload : JSValue :=
  JObj [("review", JObj [("body", unprintableNode)])].

Definition hostWith (data : JSValue) : Host :=
  mkHost (fun _ => Some data) None (DOMParser_parse stubHost).

Definition jsonResponse : FetchOutcome := Response true "OK" (Ok "{}").

(** A payload whose body is markup already, not a node. *)
Definition textBodyPayload : JSValue :=
  JObj [("review",
         JObj [("body", JStr "<p>text</p>");
               ("headerProps",
                JObj [("musicRating", JObj [("score", JNum (mkNum 78 1))])])])].

(** A payload whose [headerProps] is [false]. *)
Definition falseHeaderPayload : JSValue :=
  JObj [("review",
         JObj [("body", JArr [JStr "p"; JStr "text"]);
               ("headerProps", JBool false)])].

Definition isObject (v : JSValue) : bool :=
  match v with JObj _ => true | _ => false end.

(** The body of the scenario's page once the bar is there. *)
Definition scenarioBodyBar : Node :=
  Element "body" [] "" [scoreCircle; scoreBox; bodyWrapper; paywallBar].

(** * Properties *)

(** ** Sample evaluations *)

Example parse_exact_token : parseScoreText "7.8" = Some (mkNum 78 1).
Proof. reflexivity. Qed.

Example parse_ten : parseScoreText "10.0" = Some ten /\ parseScoreText "10" = Some ten.
Proof. split; reflexivity. Qed.

Example parse_placeholder : parseScoreText " 0.0 " = Some zero.
Proof. reflexivity. Qed.

Example parse_across_lines : parseScoreText "  Score:
  7.8 " = Some (mkNum 78 1).
Proof. reflexivity. Qed.

Example parse_two_tokens : parseScoreText "1.0 2.0" = Some (mkNum 1 0).
Proof. reflexivity. Qed.

Example parse_no_token :
  parseScoreText "3.14" = None /\ parseScoreText "a5.0" = None /\
  parseScoreText "" = None /\ parseScoreText "100" = None.
Proof. repeat split; reflexivity. Qed.

Example parse_version : parseScoreText "v1.2.3" = Some (mkNum 23 1).
Proof. reflexivity. Qed.

Example album_paths :
  isAlbumReviewPage "/reviews/albums/some-album/" = true /\
  isAlbumReviewPage "/reviews/albums/some-album" = true /\
  isAlbumReviewPage "/reviews/albums/some-album/x" = false /\
  isAlbumReviewPage "/reviews/albums/" = false /\
  isAlbumReviewPage "/x/reviews/albums/a/" = false /\
  isAlbumReviewPage "/reviews/tracks/a/" = false.
Proof. repeat split; reflexivity. Qed.

Example numbers_print :
  numToString (mkNum 78 1) = "7.8" /\ numToString (mkNum 0 3) = "0" /\
  numToString (mkNum 100 1) = "10" /\
  numToString (mkNum (-1205) 3) = "-1.205" /\
  numToString (mkNum 5 3) = "0.005".
Proof. repeat split; reflexivity. Qed.

Example strings_clean :
  trim "  a  b
 " = "a  b" /\ collapseSpaces " a   b
  c" = " a b c" /\
  toLowerCase "AdSlot" = "adslot" /\ includes "ad" "header" = true /\
  includes "ad" "div" = false.
Proof. repeat split; reflexivity. Qed.

Example values_print :
  ToString (JArr [JNum (mkNum 15 1); JNull; JArr [JBool false]; JObj []])
    = Ok "1.5,,false,[object Object]".
Proof. reflexivity. Qed.

Example render_element :
  bodyArrayToHtml (JArr [JStr "p"; JStr "a<b"; JArr [JStr "em"; JStr "c"]])
    = Ok "<p>a&lt;b<em>c</em></p>".
Proof. reflexivity. Qed.

Example render_attributes :
  bodyArrayToHtml printableNode
    = Ok ("<a href=" ++ quoted "x&amp;y" ++ " n=" ++ quoted "1.5,,false"
          ++ ">t&lt;<b>u</b></a>").
Proof. vm_compute. reflexivity. Qed.

Example render_nested_list :
  bodyArrayToHtml (JArr [JStr "p"; JArr [JStr "text"]])
    = Ok "<p><text></text></p>".
Proof. reflexivity. Qed.

Example document_queries :
  querySelector scoreBoxSel scenarioDoc = Some ([1; 1], scoreBox) /\
  querySelector bodyWrapperSel scenarioDoc = Some ([1; 2], bodyWrapper) /\
  querySelector barSel scenarioDoc = None /\
  deepestLast scoreBox = [1; 1] /\
  textContent scoreBox = "Score; 0.0" /\
  hasPaywallBar (documentBody scenarioDoc) = false /\
  hasPaywallBar (documentBody scenarioDocBar) = true /\
  getPitchforkScore scenarioPath scenarioDoc = Some zero /\
  isPaywalled scenarioPath scenarioDoc = true.
Proof. repeat split; reflexivity. Qed.

Example scenario_run :
  let pg := pageLoad stubHost scenarioPath scenarioDoc scenarioEvents in
  connected pg = false /\ pending pg = 0 /\
  getAt (document (world pg)) [1; 1; 1; 1]
    = Some (Element "p" [("class", "Rating-bk")] "blur(0px)" [Text "7.8"]).
Proof. cbv zeta. repeat split; vm_compute; reflexivity. Qed.

Example html_response_run :
  let pg := pageLoad stubHost scenarioPath scenarioDoc
              [Mutated scenarioDocBar [mkRecord [paywallBar]];
               Settled scenarioDocBar htmlResponse] in
  document (world pg) = scenarioDocBar /\
  trace (world pg) =
    [Observe; Disconnect; PaywallCheck; FetchRequest;
     Warn "[Forklift] Response is not JSON (likely HTML). First 200 chars:";
     Warn "[Forklift] Failed to fetch review JSON"].
Proof. cbv zeta. split; vm_compute; reflexivity. Qed.

(** ** Escaping *)

Lemma string_app_assoc (a b c : string) : (a ++ b) ++ c = a ++ (b ++ c).
Proof. induction a as [|x a IH]; simpl; [reflexivity | now rewrite IH]. Qed.

Lemma string_app_nil_r (a : string) : a ++ "" = a.
Proof. induction a as [|x a IH]; simpl; [reflexivity | now rewrite IH]. Qed.

Lemma replaceAll_app (c : ascii) (r a b : string) :
  replaceAll c r (a ++ b) = replaceAll c r a ++ replaceAll c r b.
Proof.
  induction a as [|x a IH]; simpl; [reflexivity|].
  now rewrite IH, string_app_assoc.
Qed.

Lemma replaceAll_single (c : ascii) (r : string) (x : ascii) :
  replaceAll c r (String x "") = if Ascii.eqb x c then r else String x "".
Proof. simpl. now rewrite string_app_nil_r. Qed.

Lemma escapeText_cons (c : ascii) (s : string) :
  escapeText (String c s) = textEntity c ++ escapeText s.
Proof.
  unfold escapeText, textEntity.
  change (String c s) with (String c "" ++ s).
  rewrite (replaceAll_app "&"), replaceAll_single.
  destruct (Ascii.eqb c "&") eqn:E1.
  - now rewrite !replaceAll_app.
  - rewrite (replaceAll_app "<"), replaceAll_single.
    destruct (Ascii.eqb c "<") eqn:E2.
    + now rewrite !replaceAll_app.
    + rewrite (replaceAll_app ">"), replaceAll_single.
      now destruct (Ascii.eqb c ">").
Qed.

Lemma escapeText_subst (s : string) : escapeText s = substChars textEntity s.
Proof.
  induction s as [|c s IH]; [reflexivity|].
  rewrite escapeText_cons. simpl. now rewrite IH.
Qed.

Lemma dquote_not_in_entity (c : ascii) :
  Ascii.eqb c dquote = false ->
  replaceAll dquote "&quot;" (textEntity c) = textEntity c.
Proof.
  intro H. unfold textEntity.
  destruct (Ascii.eqb c "&"); [reflexivity|].
  destruct (Ascii.eqb c "<"); [reflexivity|].
  destruct (Ascii.eqb c ">"); [reflexivity|].
  now rewrite replaceAll_single, H.
Qed.

Lemma escapeAttr_subst (s : string) : escapeAttr s = substChars attrEntity s.
Proof.
  unfold escapeAttr. induction s as [|c s IH]; [reflexivity|].
  rewrite escapeText_cons, replaceAll_app, IH. simpl. f_equal.
  unfold attrEntity. destruct (Ascii.eqb c dquote) eqn:E.
  - apply Ascii.eqb_eq in E. subst c. reflexivity.
  - now apply dquote_not_in_entity.
Qed.

(** ** Markup reconstruction *)

Lemma join_empty_cons (h : string) (l : list string) :
  join "" (h :: l) = h ++ join "" l.
Proof.
  unfold join. destruct l as [|x l]; simpl.
  - now rewrite string_app_nil_r.
  - reflexivity.
Qed.

Lemma renderElement_ad (t : string) (attrs : list (string * JSValue))
    (hs : Result (list string)) :
  isAdNode (JStr t) (JObj attrs) = true -> renderElement t attrs hs = Ok "".
Proof. intro H. unfold renderElement. now rewrite H. Qed.

Lemma isAdNode_tag (t : string) (attrs : JSValue) :
  mentionsAd t -> isAdNode (JStr t) attrs = true.
Proof. intro H. unfold isAdNode. now rewrite H. Qed.

Lemma isAdNode_position (t : string) (attrs : list (string * JSValue))
    (p : string) :
  lookup "position" attrs = Some (JStr p) -> mentionsAd p ->
  isAdNode (JStr t) (JObj attrs) = true.
Proof.
  intros Hl Hp. unfold isAdNode, hasKey. rewrite Hl.
  destruct (includes "ad" (toLowerCase t)); [reflexivity | exact Hp].
Qed.

Lemma advert_renders_empty (node : JSValue) :
  Advert node -> bodyArrayToHtml node = Ok "".
Proof.
  intros [t rest Ht | tag attrs children p Hl Hp].
  - simpl. destruct rest as [|[| | | | | |attrs] children];
      apply renderElement_ad, isAdNode_tag, Ht.
  - simpl. destruct tag; try reflexivity.
    eapply renderElement_ad, isAdNode_position; eassumption.
Qed.

Lemma childMarkup_cons (c : JSValue) (cs : list JSValue) :
  childMarkup (c :: cs) =
  match bodyArrayToHtml c with
  | Ok h => match childMarkup cs with
            | Ok t => Ok (h ++ t)
            | Throw e => Throw e
            end
  | Throw e => Throw e
  end.
Proof.
  unfold childMarkup. simpl.
  destruct (bodyArrayToHtml c); [|reflexivity].
  destruct (sequence (map bodyArrayToHtml cs)); [|reflexivity].
  now rewrite join_empty_cons.
Qed.

Lemma childMarkup_skip (pre post : list JSValue) (c : JSValue) :
  bodyArrayToHtml c = Ok "" ->
  childMarkup (pre ++ c :: post)%list = childMarkup (pre ++ post)%list.
Proof.
  intro H. induction pre as [|x pre IH].
  - simpl app. rewrite childMarkup_cons, H.
    now destruct (childMarkup post).
  - simpl app. now rewrite !childMarkup_cons, IH.
Qed.

(** C4.  A node that is an advertisement, by its tag name or by its
    [position] attribute, renders as the empty string whatever its
    subtree is, and among the children of a node it adds nothing to the
    markup. *)
Theorem ad_subtree_eliminated (node : JSValue) (H : Advert node) :
  bodyArrayToHtml node = Ok "" /\
  forall pre post : list JSValue,
    childMarkup (pre ++ node :: post)%list = childMarkup (pre ++ post)%list.
Proof.
  pose proof (advert_renders_empty node H) as E.
  split; [exact E|].
  intros pre post. now apply childMarkup_skip.
Qed.

Lemma ad_subtree_eliminated_witness :
  (Advert adByTag /\ bodyArrayToHtml adByTag = Ok "") /\
  (Advert adByPosition /\
   childMarkup [JStr "a"; adByPosition; JStr "b"] = childMarkup [JStr "a"; JStr "b"]).
Proof.
  assert (H1 : Advert adByTag) by (apply ad_by_tag; reflexivity).
  assert (H2 : Advert adByPosition)
    by (eapply ad_by_position; reflexivity).
  split; split; try assumption.
  - exact (proj1 (ad_subtree_eliminated adByTag H1)).
  - exact (proj2 (ad_subtree_eliminated adByPosition H2) [JStr "a"] [JStr "b"]).
Defined.

(** C7.  The reconstructor is not total.  It converts every attribute
    value with [String(v)] and guards none of these calls: for a node
    with an attribute whose value is an object with an own property
    [toString], a value [JSON.parse] can deliver, the conversion finds
    no method that returns a primitive and [bodyArrayToHtml] raises a
    [TypeError] where a string is expected. *)
Lemma reconstructor_raises_on_unprintable_attribute :
  bodyArrayToHtml unprintableNode
    = Throw (TypeError "Cannot convert object to primitive value") /\
  ~ exists s, bodyArrayToHtml unprintableNode = Ok s.
Proof.
  split; [reflexivity|]. intros [s Hs]. discriminate Hs.
Qed.

(** The shapes the reconstructor does guard: the empty array, a node
    whose tag is not a string and a leaf that is neither a string nor an
    array give the empty string. *)
Lemma malformed_shapes_render_empty :
  bodyArrayToHtml (JArr []) = Ok "" /\
  (forall tag rest, isStr tag = false ->
     bodyArrayToHtml (JArr (tag :: rest)) = Ok "") /\
  (forall leaf, isStr leaf = false -> isArray leaf = false ->
     bodyArrayToHtml leaf = Ok "").
Proof.
  split; [reflexivity|]. split.
  - intros tag rest Ht. destruct tag; try reflexivity. discriminate Ht.
  - intros leaf Hs Ha. destruct leaf; try reflexivity; discriminate.
Qed.

(** ** The document *)

Lemma getAt_app (n : Node) (p q : Path) :
  getAt n (p ++ q)%list =
  match getAt n p with
  | Some e => getAt e q
  | None => None
  end.
Proof.
  revert n. induction p as [|i p IH]; intro n; simpl; [reflexivity|].
  destruct n as [d|d|t a st cs]; try reflexivity.
  destruct (nth_error cs i); [apply IH | reflexivity].
Qed.

Lemma nth_error_updateNth {A} (f : A -> A) (l : list A) (i : nat) (x : A) :
  nth_error l i = Some x -> nth_error (updateNth i f l) i = Some (f x).
Proof.
  revert i. induction l as [|y l IH]; intros [|i] H; simpl in *;
    try discriminate.
  - now inversion H.
  - now apply IH.
Qed.

Lemma getAt_updateAt (f : Node -> Node) (p : Path) (n x : Node) :
  getAt n p = Some x -> getAt (updateAt f p n) p = Some (f x).
Proof.
  revert n. induction p as [|i p IH]; intros n H; simpl in *.
  - now inversion H.
  - destruct n as [d|d|t a st cs]; try discriminate.
    destruct (nth_error cs i) as [c|] eqn:E; [|discriminate].
    rewrite (nth_error_updateNth _ _ _ _ E). now apply IH.
Qed.

Lemma queryList_sound (sel : Selector) (cs : list Node) :
  Forall (fun c => forall p e, queryNode sel c = Some (p, e) ->
                   getAt c p = Some e /\ matchesSel sel e = true) cs ->
  forall (pre : list Node) (p : Path) (e : Node),
    (fix queryList (l : list Node) (i : nat) : option (Path * Node) :=
       match l with
       | [] => None
       | c :: l' =>
           match queryNode sel c with
           | Some (p, e) => Some (i :: p, e)
           | None => queryList l' (S i)
           end
       end) cs (List.length pre) = Some (p, e) ->
    exists i q c, p = i :: q /\ nth_error (pre ++ cs)%list i = Some c /\
                  getAt c q = Some e /\ matchesSel sel e = true.
Proof.
  induction 1 as [|c cs Hc _ IH]; intros pre p e H; [discriminate|].
  destruct (queryNode sel c) as [[q e']|] eqn:E.
  - inversion H; subst. destruct (Hc q e eq_refl) as [Hg Hm].
    exists (List.length pre), q, c. repeat split; auto.
    rewrite nth_error_app2, Nat.sub_diag; auto.
  - specialize (IH (pre ++ [c])%list p e).
    rewrite length_app, Nat.add_1_r, <- app_assoc in IH. now apply IH.
Qed.

Lemma queryNode_sound (sel : Selector) (n : Node) (p : Path) (e : Node) :
  queryNode sel n = Some (p, e) ->
  getAt n p = Some e /\ matchesSel sel e = true.
Proof.
  revert p e. induction n as [d|d|t a st cs IH] using Node_nested_ind;
    intros p e H; try discriminate.
  cbn [queryNode] in H.
  destruct (matchesSel sel (Element t a st cs)) eqn:Em.
  - inversion H; subst. now split.
  - destruct (queryList_sound sel cs IH [] p e H)
      as (i & q & c & -> & Hn & Hg & Hm).
    split; [|exact Hm]. simpl in *. now rewrite Hn.
Qed.

Lemma matchesSel_isElement (sel : Selector) (n : Node) :
  matchesSel sel n = true -> isElement n = true.
Proof. now destruct n. Qed.

Lemma lastElementFrom_sound (cs : list Node) :
  forall (pre : list Node) (i : nat) (c : Node),
    lastElementFrom cs (List.length pre) = Some (i, c) ->
    nth_error (pre ++ cs)%list i = Some c /\ In c cs /\ isElement c = true.
Proof.
  induction cs as [|x cs IH]; intros pre i c H; [discriminate|].
  simpl in H.
  destruct (lastElementFrom cs (S (List.length pre))) as [r|] eqn:E.
  - inversion H; subst. specialize (IH (pre ++ [x])%list i c).
    rewrite length_app, Nat.add_1_r, <- app_assoc in IH.
    destruct (IH E) as (Hn & Hi & He). repeat split; auto. now right.
  - destruct (isElement x) eqn:Ex; [|discriminate]. inversion H; subst.
    repeat split; auto; [|now left].
    rewrite nth_error_app2, Nat.sub_diag; auto.
Qed.

(** The loop of [updatePageWithScore]: one step to the last element
    child while there is one. *)
Lemma deepestLast_loop (n : Node) :
  deepestLast n =
  match lastElementChild n with
  | Some (i, c) => i :: deepestLast c
  | None => []
  end.
Proof.
  destruct n as [d|d|t a st cs]; try reflexivity.
  cbn [deepestLast lastElementChild].
  set (lastElem := fix lastElem (l : list Node) (i0 : nat) : option Path :=
                 match l with
                 | [] => None
                 | c0 :: l' =>
                     match lastElem l' (S i0) with
                     | Some p => Some p
                     | None =>
                         match c0 with
                         | Element _ _ _ _ => Some (i0 :: deepestLast c0)
                         | _ => None
                         end
                     end
                 end).
  assert (H : forall i, lastElem cs i =
                match lastElementFrom cs i with
                | Some (j, c) => Some (j :: deepestLast c)
                | None => None
                end).
  { induction cs as [|x cs IH]; intro i; [reflexivity|].
    cbn [lastElem lastElementFrom]. fold lastElem. rewrite IH.
    destruct (lastElementFrom cs (S i)) as [[j c]|]; [reflexivity|].
    now destruct x. }
  rewrite H. now destruct (lastElementFrom cs 0) as [[j c]|].
Qed.

Lemma deepestLast_element (n : Node) :
  isElement n = true ->
  exists t a st cs,
    getAt n (deepestLast n) = Some (Element t a st cs) /\
    lastElementChild (Element t a st cs) = None.
Proof.
  induction n as [d|d|t a st cs IH] using Node_nested_ind;
    intro H; try discriminate.
  rewrite deepestLast_loop.
  destruct (lastElementChild (Element t a st cs)) as [[i c]|] eqn:E.
  - destruct (lastElementFrom_sound cs [] i c E) as (Hn & Hin & He).
    rewrite Forall_forall in IH.
    destruct (IH c Hin He) as (t' & a' & st' & cs' & Hg & Hl).
    exists t', a', st', cs'. split; [|exact Hl].
    simpl in *. now rewrite Hn.
  - exists t, a, st, cs. now split.
Qed.

(** ** DOM patcher *)

Lemma restored_node (doc : Node) (p : Path) (wrapper : Node) (s : string) :
  getAt doc p = Some wrapper -> isElement wrapper = true ->
  exists t a st cs,
    getAt doc (p ++ deepestLast wrapper)%list = Some (Element t a st cs) /\
    lastElementChild (Element t a st cs) = None /\
    getAt (scoreRestored s (p ++ deepestLast wrapper)%list doc)
          (p ++ deepestLast wrapper)%list
      = Some (Element t a "blur(0px)" (if String.eqb s "" then [] else [Text s])).
Proof.
  intros Hg He.
  destruct (deepestLast_element wrapper He) as (t & a & st & cs & Hd & Hl).
  exists t, a, st, cs.
  assert (Hel : getAt doc (p ++ deepestLast wrapper)%list
                = Some (Element t a st cs))
    by now rewrite getAt_app, Hg.
  repeat split; auto.
  unfold scoreRestored.
  rewrite (getAt_updateAt _ _ _ (setTextContent s (Element t a st cs)));
    [reflexivity|].
  now apply getAt_updateAt.
Qed.

Lemma updatePageWithScore_found (score : JSValue) (s : string) (w : World)
    (p : Path) (wrapper : Node) :
  match score with JUndefined | JNull => False | _ => True end ->
  ToString score = Ok s ->
  querySelector scoreBoxSel (document w) = Some (p, wrapper) ->
  updatePageWithScore score w =
  (Ok tt, mkWorld (scoreRestored s (p ++ deepestLast wrapper)%list (document w))
            (trace w)).
Proof.
  intros Hn Hs Hq. unfold updatePageWithScore.
  destruct score; try contradiction;
    unfold bind, getDocument, liftR, modifyDocument; cbn [document trace];
    rewrite Hq, Hs; reflexivity.
Qed.



Lemma andGet_ok (v : JSValue) (k : string) : exists x, andGet v k = Ok x.
Proof.
  unfold andGet. destruct (truthy v) eqn:E; [|eauto].
  destruct v; try discriminate; simpl; eauto.
  destruct (lookup k props); eauto.
Qed.

Lemma reviewScore_ok (data : JSValue) : exists s, reviewScore data = Ok s.
Proof.
  unfold reviewScore.
  destruct (andGet_ok data "review") as [r ->]. simpl.
  destruct (andGet_ok r "headerProps") as [hp ->]. simpl.
  destruct (andGet_ok hp "musicRating") as [mr ->]. simpl.
  apply andGet_ok.
Qed.

Lemma replaceBody_run (h : Host) (html : string) (p : Path) (w : World) :
  replaceBody h html p w =
  (Ok tt, mkWorld (bodyReplaced h html p (document w))
            (trace w ++ [parseCall h html])%list).
Proof.
  unfold replaceBody, bodyReplaced, hostParse, parseCall.
  destruct (Sanitizer h) as [f|]; unfold bind, emit, modifyDocument, ret;
    cbn [document trace]; [|reflexivity].
  destruct (f "div" html); reflexivity.
Qed.

Lemma enhanceThen_run (h : Host) (data body : JSValue) (html : string)
    (w : World) :
  reviewBody data = Ok body -> isArray body = true ->
  bodyArrayToHtml body = Ok html ->
  enhanceThen h data w =
  match querySelector bodyWrapperSel (document w) with
  | None =>
      (Ok tt, mkWorld (document w)
                (trace w ++ [Warn "[Forklift] BodyWrapper not found"])%list)
  | Some (p, _) =>
      (score <- liftR (reviewScore data) ;; updatePageWithScore score)
        (mkWorld (bodyReplaced h html p (document w))
           (trace w ++ [parseCall h html])%list)
  end.
Proof.
  intros Hb Ha Hh. unfold enhanceThen.
  unfold bind at 1. unfold liftR at 1. rewrite Hb, Ha. cbn [negb].
  unfold bind at 1. unfold liftR at 1. rewrite Hh.
  unfold bind at 1. unfold getDocument.
  destruct (querySelector bodyWrapperSel (document w)) as [[p bw]|];
    [|reflexivity].
  unfold bind at 1. now rewrite replaceBody_run.
Qed.

Lemma updatePageWithScore_absent (score : JSValue) (w : World) :
  querySelector scoreBoxSel (document w) = None ->
  updatePageWithScore score w = (Ok tt, w).
Proof.
  intro H. unfold updatePageWithScore.
  destruct score; try reflexivity;
    unfold bind, getDocument; rewrite H; reflexivity.
Qed.

Lemma bodyReplaced_children (h : Host) (html : string) (p : Path)
    (doc bw : Node) (nodes : list Node) :
  getAt doc p = Some bw -> hostParse h html = Some nodes ->
  getAt (bodyReplaced h html p doc) p = Some (replaceChildren nodes bw).
Proof.
  intros Hg Hp. unfold bodyReplaced. rewrite Hp. now apply getAt_updateAt.
Qed.

(** C1, as stated, fails.  In the scenario the array [review.body] is
    read as one node; its first element is an array, not a tag name, so
    the markup handed to the parser is the empty string and the body
    wrapper is left without children. *)
Lemma scenario_markup_is_empty :
  let pg := pageLoad stubHost scenarioPath scenarioDoc scenarioEvents in
  bodyArrayToHtml scenarioBody = Ok "" /\
  bodyArrayToHtml scenarioBody <> Ok "<p>text</p>" /\
  trace (world pg) =
    [Observe; Disconnect; PaywallCheck; FetchRequest;
     ParseFromString "" "text/html"] /\
  getAt (document (world pg)) [1; 2]
    = Some (Element "div" [("data-testid", "BodyWrapper")] "" []).
Proof.
  cbv zeta. split; [reflexivity|]. split; [discriminate|].
  split; vm_compute; reflexivity.
Qed.

(** C1, amended.  When the request resolves with the payload of the
    scenario, the markup rebuilt from [review.body] is the empty string:
    the children of the body wrapper are replaced by the nodes the host
    obtains from the empty markup; and the element the loop over the last
    element children of the score box ends on has its text set to "7.8"
    and its filter to [blur(0px)]. *)
Theorem scenario_patch (h : Host) (w : World) (p q : Path) (bw sw : Node)
    (Hbody : querySelector bodyWrapperSel (document w) = Some (p, bw))
    (Hscore : querySelector scoreBoxSel (bodyReplaced h "" p (document w))
              = Some (q, sw)) :
  let doc1 := bodyReplaced h "" p (document w) in
  let el := (q ++ deepestLast sw)%list in
  reviewBody scenarioPayload = Ok scenarioBody /\
  bodyArrayToHtml scenarioBody = Ok "" /\
  enhanceThen h scenarioPayload w =
    (Ok tt, mkWorld (scoreRestored "7.8" el doc1)
              (trace w ++ [parseCall h ""])%list) /\
  (forall nodes, hostParse h "" = Some nodes ->
     getAt doc1 p = Some (replaceChildren nodes bw)) /\
  exists t a st cs,
    getAt doc1 el = Some (Element t a st cs) /\
    lastElementChild (Element t a st cs) = None /\
    getAt (scoreRestored "7.8" el doc1) el
      = Some (Element t a "blur(0px)" [Text "7.8"]).
Proof.
  intros doc1 el.
  split; [reflexivity|]. split; [reflexivity|]. split; [|split].
  - rewrite (enhanceThen_run h scenarioPayload scenarioBody "");
      try reflexivity.
    rewrite Hbody. unfold bind at 1. unfold liftR.
    change (reviewScore scenarioPayload) with (Ok (JNum (mkNum 78 1))).
    cbv iota.
    now rewrite (updatePageWithScore_found _ "7.8" _ q sw).
  - intros nodes Hn. apply bodyReplaced_children; [|exact Hn].
    now destruct (queryNode_sound _ _ _ _ Hbody).
  - destruct (queryNode_sound _ _ _ _ Hscore) as [Hg Hm].
    apply (restored_node doc1 q sw "7.8" Hg).
    now apply matchesSel_isElement in Hm.
Qed.

Lemma scenario_patch_witness :
  querySelector bodyWrapperSel scenarioDocBar = Some ([1; 2], bodyWrapper) /\
  querySelector scoreBoxSel (bodyReplaced sanitizingHost "" [1; 2] scenarioDocBar)
    = Some ([1; 1], scoreBox) /\
  enhanceThen sanitizingHost scenarioPayload (mkWorld scenarioDocBar []) =
    (Ok tt,
     mkWorld (scoreRestored "7.8" [1; 1; 1; 1]
                (bodyReplaced sanitizingHost "" [1; 2] scenarioDocBar))
       [SanitizeFor "div" ""]).
Proof.
  split; [reflexivity|]. split; [reflexivity|].
  exact (proj1 (proj2 (proj2 (scenario_patch sanitizingHost
                                (mkWorld scenarioDocBar []) [1; 2] [1; 1]
                                bodyWrapper scoreBox eq_refl eq_refl)))).
Defined.

(** C2, as stated, fails.  On a page that has the score box and lacks the
    body wrapper the callback returns after its warning: the document is
    left as it was, although the score restore alone would change it. *)
Lemma missing_body_blocks_score_restore :
  querySelector bodyWrapperSel docNoBody = None /\
  querySelector scoreBoxSel docNoBody = Some ([1; 1], scoreBox) /\
  reviewScore scenarioPayload = Ok (JNum (mkNum 78 1)) /\
  enhanceThen stubHost scenarioPayload (mkWorld docNoBody []) =
    (Ok tt, mkWorld docNoBody [Warn "[Forklift] BodyWrapper not found"]) /\
  document (snd (updatePageWithScore (JNum (mkNum 78 1)) (mkWorld docNoBody [])))
    <> docNoBody.
Proof.
  repeat split; try reflexivity. vm_compute. discriminate.
Qed.

(** C2, amended.  For a payload whose [review.body] is an array that
    renders: when the body wrapper is absent the callback warns and
    returns, so that neither mutation is made; when the body wrapper is
    present and the score box is absent, the body replacement is made and
    only the score restore is skipped. *)
Theorem patch_skips (h : Host) (data body : JSValue) (html : string)
    (w : World)
    (Hb : reviewBody data = Ok body) (Ha : isArray body = true)
    (Hh : bodyArrayToHtml body = Ok html) :
  (querySelector bodyWrapperSel (document w) = None ->
   enhanceThen h data w =
     (Ok tt, mkWorld (document w)
               (trace w ++ [Warn "[Forklift] BodyWrapper not found"])%list)) /\
  (forall p bw,
     querySelector bodyWrapperSel (document w) = Some (p, bw) ->
     querySelector scoreBoxSel (bodyReplaced h html p (document w)) = None ->
     enhanceThen h data w =
       (Ok tt, mkWorld (bodyReplaced h html p (document w))
                 (trace w ++ [parseCall h html])%list)).
Proof.
  split.
  - intro Hq. rewrite (enhanceThen_run h data body html w Hb Ha Hh).
    now rewrite Hq.
  - intros p bw Hq Hs.
    rewrite (enhanceThen_run h data body html w Hb Ha Hh), Hq.
    destruct (reviewScore_ok data) as [score Hsc].
    unfold bind, liftR. rewrite Hsc.
    now apply updatePageWithScore_absent.
Qed.

Lemma patch_skips_witness :
  (querySelector bodyWrapperSel docNoBody = None /\
   enhanceThen stubHost scenarioPayload (mkWorld docNoBody []) =
     (Ok tt, mkWorld docNoBody [Warn "[Forklift] BodyWrapper not found"])) /\
  (querySelector bodyWrapperSel docNoScore = Some ([1; 1], bodyWrapper) /\
   querySelector scoreBoxSel (bodyReplaced stubHost "" [1; 1] docNoScore) = None /\
   enhanceThen stubHost scenarioPayload (mkWorld docNoScore []) =
     (Ok tt, mkWorld (bodyReplaced stubHost "" [1; 1] docNoScore)
               [ParseFromString "" "text/html"])).
Proof.
  split.
  - split; [reflexivity|].
    exact (proj1 (patch_skips stubHost scenarioPayload scenarioBody ""
                    (mkWorld docNoBody []) eq_refl eq_refl eq_refl) eq_refl).
  - split; [reflexivity|]. split; [reflexivity|].
    exact (proj2 (patch_skips stubHost scenarioPayload scenarioBody ""
                    (mkWorld docNoScore []) eq_refl eq_refl eq_refl)
             [1; 1] bodyWrapper eq_refl eq_refl).
Defined.

(** C9.  The callback renders the array [review.body] as one node, its
    first element being the tag.  So for every payload whose
    [review.body] is a non-empty array with a first element that is not
    a string, the markup is the empty string; where the page has the
    body wrapper, and the host obtains no node from the empty markup,
    the wrapper is left without children before the score is restored. *)
Theorem body_rendered_as_one_node (h : Host) (data first : JSValue)
    (rest : list JSValue) (w : World) (p : Path) (bw : Node)
    (Hb : reviewBody data = Ok (JArr (first :: rest)))
    (Hf : isStr first = false)
    (Hq : querySelector bodyWrapperSel (document w) = Some (p, bw))
    (Hp : hostParse h "" = Some []) :
  let doc1 := bodyReplaced h "" p (document w) in
  bodyArrayToHtml (JArr (first :: rest)) = Ok "" /\
  enhanceThen h data w =
    (score <- liftR (reviewScore data) ;; updatePageWithScore score)
      (mkWorld doc1 (trace w ++ [parseCall h ""])%list) /\
  getAt doc1 p = Some (replaceChildren [] bw) /\
  exists t a st, replaceChildren [] bw = Element t a st [].
Proof.
  intro doc1.
  assert (Hh : bodyArrayToHtml (JArr (first :: rest)) = Ok "")
    by (destruct first; try reflexivity; discriminate Hf).
  split; [exact Hh|]. split; [|split].
  - rewrite (enhanceThen_run h data _ "" w Hb eq_refl Hh). now rewrite Hq.
  - destruct (queryNode_sound _ _ _ _ Hq) as [Hg _].
    now apply bodyReplaced_children.
  - destruct (queryNode_sound _ _ _ _ Hq) as [_ Hm].
    destruct bw as [d|d|t a st cs]; try discriminate Hm.
    now exists t, a, st.
Qed.

Lemma body_rendered_as_one_node_witness :
  reviewBody scenarioPayload = Ok scenarioBody /\
  querySelector bodyWrapperSel scenarioDocBar = Some ([1; 2], bodyWrapper) /\
  hostParse stubHost "" = Some [] /\
  bodyArrayToHtml scenarioBody = Ok "" /\
  getAt (bodyReplaced stubHost "" [1; 2] scenarioDocBar) [1; 2]
    = Some (replaceChildren [] bodyWrapper).
Proof.
  pose proof (body_rendered_as_one_node stubHost scenarioPayload
                (JArr [JStr "p"; JArr [JStr "text"]]) []
                (mkWorld scenarioDocBar []) [1; 2] bodyWrapper
                eq_refl eq_refl eq_refl eq_refl) as H.
  cbv zeta in H. destruct H as [H1 [_ [H3 _]]].
  repeat split; try reflexivity; assumption.
Defined.

(** Rendering the elements of the scenario's [review.body] one by one
    would not give the empty string. *)
Example scenario_body_mapped :
  childMarkup [JArr [JStr "p"; JArr [JStr "text"]]] = Ok "<p><text></text></p>" /\
  childMarkup [JArr [JStr "p"; JStr "text"]] = Ok "<p>text</p>".
Proof. split; reflexivity. Qed.

(** ** Remote content fetcher *)

Lemma fetch_rejects_iff (h : Host) (ok : bool) (st text : string) (w : World) :
  isThrow (fst (fetchReviewJson h (Response ok st (Ok text)) w)) = true <->
  (ok = false \/ trim text = "" \/ startsWith "<" (trim text) = true \/
   JSON_parse h (trim text) = None).
Proof.
  unfold fetchReviewJson. destruct ok; cbn [negb]; [|simpl; tauto].
  unfold bind at 1. unfold liftR at 1.
  destruct (String.eqb (trim text) "") eqn:E1.
  - simpl. apply String.eqb_eq in E1. tauto.
  - apply String.eqb_neq in E1. cbn [orb].
    destruct (startsWith "<" (trim text)) eqn:E2.
    + simpl. tauto.
    + destruct (JSON_parse h (trim text)) eqn:E3; simpl.
      * split; [discriminate|]. intros [H|[H|[H|H]]]; try discriminate.
        contradiction.
      * tauto.
Qed.

Lemma fetch_failure_trace (h : Host) (o : FetchOutcome) (w : World) :
  exists t,
    snd (fetchReviewJson h o w) = mkWorld (document w) (trace w ++ t)%list /\
    forallb isWarn t = true.
Proof.
  destruct w as [doc tr]. unfold fetchReviewJson.
  destruct o as [e|ok st body].
  - exists []. simpl. now rewrite app_nil_r.
  - destruct ok; cbn [negb].
    + destruct body as [text|e]; unfold bind at 1; unfold liftR at 1.
      * destruct (String.eqb (trim text) "" || startsWith "<" (trim text)).
        -- eexists [_]. split; reflexivity.
        -- destruct (JSON_parse h (trim text)).
           ++ exists []. simpl. now rewrite app_nil_r.
           ++ eexists [_]. split; reflexivity.
      * exists []. simpl. now rewrite app_nil_r.
    + exists []. simpl. now rewrite app_nil_r.
Qed.

Lemma rejection_reaches_catch (h : Host) (o : FetchOutcome) (w : World)
    (e : Exn) :
  fst (fetchReviewJson h o w) = Throw e ->
  exists t,
    enhanceSettled h o w =
      (Ok tt, mkWorld (document w)
                (trace w ++ t ++ [Warn "[Forklift] Failed to fetch review JSON"])%list)
    /\ forallb isWarn t = true.
Proof.
  intro H. destruct (fetch_failure_trace h o w) as [t [Ht Hw]].
  exists t. split; [|exact Hw].
  unfold enhanceSettled, catch, bind.
  destruct (fetchReviewJson h o w) as [r w'] eqn:E. simpl in H, Ht. subst r w'.
  unfold enhanceCatch, warn, emit. cbn [document trace].
  now rewrite <- app_assoc.
Qed.

(** C6.  A response is rejected exactly when its status is not a success,
    or its trimmed text is empty or begins with [<], or [JSON.parse]
    fails on it.  Every rejection of the request, a network failure
    included, ends in the one [catch] of [enhancePaywalledPage]: the
    document is left as it was and only warnings are traced, no further
    request. *)
Theorem fetch_failures_surface_once (h : Host) :
  (forall ok st text w,
     isThrow (fst (fetchReviewJson h (Response ok st (Ok text)) w)) = true <->
     (ok = false \/ trim text = "" \/ startsWith "<" (trim text) = true \/
      JSON_parse h (trim text) = None)) /\
  (forall o w e,
     fst (fetchReviewJson h o w) = Throw e ->
     exists t,
       enhanceSettled h o w =
         (Ok tt, mkWorld (document w)
                   (trace w ++ t
                    ++ [Warn "[Forklift] Failed to fetch review JSON"])%list)
       /\ forallb isWarn t = true).
Proof.
  split.
  - apply fetch_rejects_iff.
  - apply rejection_reaches_catch.
Qed.

Lemma fetch_failures_surface_once_witness :
  fst (fetchReviewJson stubHost htmlResponse (mkWorld scenarioDocBar [FetchRequest]))
    = Throw (Error "Server returned non-JSON response") /\
  exists t,
    enhanceSettled stubHost htmlResponse (mkWorld scenarioDocBar [FetchRequest]) =
      (Ok tt, mkWorld scenarioDocBar
                ([FetchRequest] ++ t
                 ++ [Warn "[Forklift] Failed to fetch review JSON"])%list)
    /\ forallb isWarn t = true.
Proof.
  split; [reflexivity|].
  exact (proj2 (fetch_failures_surface_once stubHost) htmlResponse
           (mkWorld scenarioDocBar [FetchRequest])
           (Error "Server returned non-JSON response") eq_refl).
Defined.

(** ** Paywall-drop watcher *)

Lemma quietly_ret {A} (a : A) : quietly (ret a).
Proof. intro w. exists []. simpl. now rewrite app_nil_r. Qed.

Lemma quietly_liftR {A} (r : Result A) : quietly (liftR r).
Proof. intro w. exists []. simpl. now rewrite app_nil_r. Qed.

Lemma quietly_getDocument : quietly getDocument.
Proof. intro w. exists []. simpl. now rewrite app_nil_r. Qed.

Lemma quietly_modifyDocument (f : Node -> Node) : quietly (modifyDocument f).
Proof. intro w. exists []. simpl. now rewrite app_nil_r. Qed.

Lemma quietly_emit (e : Effect) : isQuiet e = true -> quietly (emit e).
Proof. intros H w. exists [e]. simpl. now rewrite H. Qed.

Lemma quietly_bind {A B} (m : M A) (f : A -> M B) :
  quietly m -> (forall a, quietly (f a)) -> quietly (bind m f).
Proof.
  intros Hm Hf w. unfold bind. destruct (Hm w) as [t1 [E1 Q1]].
  destruct (m w) as [[a|e] w1]; simpl in E1.
  - destruct (Hf a w1) as [t2 [E2 Q2]]. exists (t1 ++ t2)%list.
    rewrite E2, E1, app_assoc, forallb_app, Q1, Q2. now split.
  - exists t1. now split.
Qed.

Lemma quietly_catch {A} (m : M A) (k : Exn -> M A) :
  quietly m -> (forall e, quietly (k e)) -> quietly (catch m k).
Proof.
  intros Hm Hk w. unfold catch. destruct (Hm w) as [t1 [E1 Q1]].
  destruct (m w) as [[a|e] w1]; simpl in E1.
  - exists t1. now split.
  - destruct (Hk e w1) as [t2 [E2 Q2]]. exists (t1 ++ t2)%list.
    rewrite E2, E1, app_assoc, forallb_app, Q1, Q2. now split.
Qed.

Create HintDb quiet.
#[local] Hint Resolve quietly_ret quietly_liftR quietly_getDocument
  quietly_modifyDocument : quiet.

Ltac quiet_step :=
  first
    [ apply quietly_bind; [|intro]
    | apply quietly_emit; reflexivity
    | solve [auto with quiet] ].

Lemma quietly_fetchReviewJson (h : Host) (o : FetchOutcome) :
  quietly (fetchReviewJson h o).
Proof.
  unfold fetchReviewJson, warn. destruct o as [e|ok st body]; [quiet_step|].
  destruct (negb ok); [quiet_step|].
  apply quietly_bind; [quiet_step|]. intro text.
  destruct (String.eqb (trim text) "" || startsWith "<" (trim text)).
  - repeat quiet_step.
  - destruct (JSON_parse h (trim text)); repeat quiet_step.
Qed.

Lemma quietly_updatePageWithScore (score : JSValue) :
  quietly (updatePageWithScore score).
Proof.
  unfold updatePageWithScore.
  destruct score; try apply quietly_ret;
    (apply quietly_bind; [quiet_step|]; intro doc;
     destruct (querySelector scoreBoxSel doc) as [[p wr]|];
     repeat quiet_step).
Qed.

Lemma quietly_replaceBody (h : Host) (html : string) (p : Path) :
  quietly (replaceBody h html p).
Proof.
  unfold replaceBody. destruct (Sanitizer h) as [f|].
  - apply quietly_bind; [quiet_step|]. intros _.
    destruct (f "div" html); quiet_step.
  - repeat quiet_step.
Qed.

Lemma quietly_enhanceThen (h : Host) (data : JSValue) :
  quietly (enhanceThen h data).
Proof.
  unfold enhanceThen, warn.
  apply quietly_bind; [quiet_step|]. intro body.
  destruct (negb (isArray body)); [quiet_step|].
  apply quietly_bind; [quiet_step|]. intro html.
  apply quietly_bind; [quiet_step|]. intro doc.
  destruct (querySelector bodyWrapperSel doc) as [[p bw]|]; [|quiet_step].
  apply quietly_bind; [apply quietly_replaceBody|]. intros _.
  apply quietly_bind; [quiet_step|]. intro score.
  apply quietly_updatePageWithScore.
Qed.

Lemma quietly_enhanceSettled (h : Host) (o : FetchOutcome) :
  quietly (enhanceSettled h o).
Proof.
  unfold enhanceSettled. apply quietly_catch.
  - apply quietly_bind; [apply quietly_fetchReviewJson|].
    intro data. apply quietly_enhanceThen.
  - intro e. unfold enhanceCatch, warn. quiet_step.
Qed.

Lemma shape_main (pathname : string) (doc : Node) : Shape (main pathname doc).
Proof.
  unfold main.
  destruct (negb (isAlbumReviewPage pathname)).
  { apply (shape_done doc [] [] 0); simpl; auto. }
  destruct (hasPaywallBar (documentBody doc)).
  { unfold runPaywallCheck, enhancePaywalledPage, log. cbn.
    destruct (isPaywalled pathname doc).
    - apply (shape_done doc [PaywallCheck; FetchRequest] [] 1); simpl; auto.
    - apply (shape_done doc [PaywallCheck] [] 0); simpl; auto. }
  destruct (documentBody doc).
  - apply shape_observing.
  - apply (shape_done doc [] [Uncaught _] 0); simpl; auto.
Qed.

Lemma shape_step (h : Host) (pathname : string) (pg : Page) (ev : PageEvent) :
  Shape pg -> Shape (step h pathname pg ev).
Proof.
  intros [doc | doc pre t n Hpre Hn Hq]; destruct ev as [doc' ms | doc' o];
    unfold step, withDocument; cbn [connected pending world trace document].
  - unfold observerCallback. destruct (scanMutations ms).
    + unfold runPaywallCheck, disconnect, enhancePaywalledPage, log. cbn.
      destruct (isPaywalled pathname doc').
      * apply (shape_done doc' [Observe; Disconnect; PaywallCheck; FetchRequest]
                 [] 1); simpl; auto 6.
      * apply (shape_done doc' [Observe; Disconnect; PaywallCheck] [] 0);
          simpl; auto 6.
    + apply shape_observing.
  - apply shape_observing.
  - now apply shape_done.
  - destruct n as [|n]; [now apply shape_done|].
    destruct (quietly_enhanceSettled h o (mkWorld doc' (pre ++ t)%list))
      as [t' [E Q]].
    destruct (enhanceSettled h o (mkWorld doc' (pre ++ t)%list)) as [r [d tr]].
    cbn [snd trace] in *. subst tr. rewrite <- app_assoc.
    apply shape_done; auto; [lia|]. now rewrite forallb_app, Hq, Q.
Qed.

Lemma shape_pageLoad (h : Host) (pathname : string) (doc : Node)
    (events : list PageEvent) :
  Shape (pageLoad h pathname doc events).
Proof.
  unfold pageLoad. generalize (shape_main pathname doc).
  generalize (main pathname doc). induction events as [|ev events IH];
    intros pg H; simpl; [exact H|].
  apply IH. now apply shape_step.
Qed.

Lemma count_app (p : Effect -> bool) (a b : list Effect) :
  count p (a ++ b)%list = count p a + count p b.
Proof. unfold count. now rewrite filter_app, length_app. Qed.

Lemma count_quiet (p : Effect -> bool) (t : list Effect) :
  (forall e, p e = true -> isQuiet e = false) ->
  forallb isQuiet t = true -> count p t = 0.
Proof.
  intros Hp. unfold count. induction t as [|e t IH]; simpl; [reflexivity|].
  intro H. apply andb_true_iff in H. destruct H as [He Ht].
  destruct (p e) eqn:E; [|now apply IH].
  apply Hp in E. congruence.
Qed.

Lemma check_not_quiet (e : Effect) : isCheck e = true -> isQuiet e = false.
Proof. now destruct e. Qed.

Lemma fetch_not_quiet (e : Effect) : isFetch e = true -> isQuiet e = false.
Proof. now destruct e. Qed.

Lemma disconnect_not_quiet (e : Effect) :
  isDisconnect e = true -> isQuiet e = false.
Proof. now destruct e. Qed.

Lemma observerCallback_fires (pathname : string)
    (ms : list MutationRecord) (pg : Page) :
  scanMutations ms = true ->
  connected (observerCallback pathname ms pg) = false /\
  exists t,
    trace (world (observerCallback pathname ms pg))
      = (trace (world pg) ++ Disconnect :: PaywallCheck :: t)%list /\
    (t = [] \/ t = [FetchRequest]).
Proof.
  intro H. unfold observerCallback. rewrite H.
  unfold runPaywallCheck, disconnect, enhancePaywalledPage, log.
  cbn [connected pending world trace document].
  destruct (isPaywalled pathname (document (world pg)));
    cbn [connected pending world trace document]; (split; [reflexivity|]).
  - exists [FetchRequest]. rewrite <- !app_assoc. auto.
  - exists []. rewrite <- !app_assoc. auto.
Qed.

Lemma shape_facts (pg : Page) :
  Shape pg ->
  let t := trace (world pg) in
  count isCheck t <= 1 /\
  count isFetch t <= 1 /\
  count isDisconnect t <= 1 /\
  pending pg <= count isFetch t /\
  (count isCheck t = 1 -> connected pg = false) /\
  (count isObserve t = 1 -> count isCheck t = 1 ->
   exists t0 t2, t = (t0 ++ Disconnect :: PaywallCheck :: t2)%list /\
                 count isCheck t0 = 0 /\ count isCheck t2 = 0).
Proof.
  intros [d | d pre q n Hpre Hn Hq]; cbn [world trace connected pending].
  - cbn. do 4 (split; [lia|]). split; intros; discriminate.
  - assert (Hc : count isCheck q = 0)
      by (apply count_quiet; [apply check_not_quiet | exact Hq]).
    assert (Hf : count isFetch q = 0)
      by (apply count_quiet; [apply fetch_not_quiet | exact Hq]).
    assert (Hd : count isDisconnect q = 0)
      by (apply count_quiet; [apply disconnect_not_quiet | exact Hq]).
    assert (Ho : count isObserve q = 0)
      by (apply count_quiet; [now destruct e | exact Hq]).
    rewrite !count_app, Hc, Hf, Hd, Ho.
    simpl in Hpre.
    destruct Hpre as [<-|[<-|[<-|[<-|[<-|[]]]]]]; cbn in Hn |- *;
      (do 4 (split; [lia|])); (split; [reflexivity|]);
      intros H1 H2; try discriminate.
    + exists [Observe], q. now repeat split.
    + exists [Observe], (FetchRequest :: q). now repeat split.
Qed.

(** C5.  When the observer callback finds the bar it disconnects the
    observer and only then runs the check.  Whatever the page does
    afterwards, in one page load the check runs at most once and at most
    one request is sent; once the check has run the observer is
    disconnected; and where the observer had been installed, the
    disconnection comes immediately before the check. *)
Theorem pipeline_runs_at_most_once (h : Host) (pathname : string) (doc : Node)
    (events : list PageEvent) :
  let pg := pageLoad h pathname doc events in
  let t := trace (world pg) in
  (count isCheck t <= 1 /\
   count isFetch t <= 1 /\
   count isDisconnect t <= 1 /\
   pending pg <= count isFetch t /\
   (count isCheck t = 1 -> connected pg = false) /\
   (count isObserve t = 1 -> count isCheck t = 1 ->
    exists t0 t2, t = (t0 ++ Disconnect :: PaywallCheck :: t2)%list /\
                  count isCheck t0 = 0 /\ count isCheck t2 = 0)) /\
  (forall pg0 ms, scanMutations ms = true ->
     connected (observerCallback pathname ms pg0) = false /\
     exists t2,
       trace (world (observerCallback pathname ms pg0))
         = (trace (world pg0) ++ Disconnect :: PaywallCheck :: t2)%list /\
       (t2 = [] \/ t2 = [FetchRequest])).
Proof.
  intros pg t. split.
  - apply shape_facts, shape_pageLoad.
  - intros pg0 ms H. now apply observerCallback_fires.
Qed.

Lemma pipeline_runs_at_most_once_witness :
  let pg := pageLoad stubHost scenarioPath scenarioDoc insistentEvents in
  count isCheck (trace (world pg)) = 1 /\
  count isObserve (trace (world pg)) = 1 /\
  connected pg = false /\
  (exists t0 t2,
     trace (world pg) = (t0 ++ Disconnect :: PaywallCheck :: t2)%list /\
     count isCheck t0 = 0 /\ count isCheck t2 = 0) /\
  scanMutations [mkRecord [Text "x"; paywallBar]] = true /\
  connected (observerCallback scenarioPath [mkRecord [Text "x"; paywallBar]]
               (main scenarioPath scenarioDoc)) = false.
Proof.
  cbv zeta.
  pose proof (pipeline_runs_at_most_once stubHost scenarioPath scenarioDoc
                insistentEvents) as H.
  cbv zeta in H. destruct H as ((_ & _ & _ & _ & Hc & Ho) & Hf).
  assert (E1 : count isCheck
                 (trace (world (pageLoad stubHost scenarioPath scenarioDoc
                                  insistentEvents))) = 1)
    by (vm_compute; reflexivity).
  assert (E2 : count isObserve
                 (trace (world (pageLoad stubHost scenarioPath scenarioDoc
                                  insistentEvents))) = 1)
    by (vm_compute; reflexivity).
  split; [exact E1|]. split; [exact E2|].
  split; [exact (Hc E1)|]. split; [exact (Ho E2 E1)|].
  split; [reflexivity|].
  exact (proj1 (Hf (main scenarioPath scenarioDoc)
                  [mkRecord [Text "x"; paywallBar]] eq_refl)).
Defined.

(** ** Score parser *)

Lemma string_length_app (a b : string) :
  String.length (a ++ b) = String.length a + String.length b.
Proof. induction a as [|c a IH]; simpl; [reflexivity | now rewrite IH]. Qed.

Lemma string_app_inv (a b c d : string) :
  a ++ b = c ++ d -> String.length a = String.length c -> a = c /\ b = d.
Proof.
  revert c. induction a as [|x a IH]; intros [|y c] H L; simpl in *;
    try discriminate; [now split|].
  inversion H; subst. destruct (IH c) as [-> ->]; auto.
Qed.

Lemma string_app_cancel_r (a c b : string) : a ++ b = c ++ b -> a = c.
Proof.
  intro H. apply (string_app_inv a b c b H).
  apply (f_equal String.length) in H. rewrite !string_length_app in H. lia.
Qed.

Lemma takeStr_app (g rest : string) :
  takeStr (String.length (g ++ rest) - String.length rest) (g ++ rest) = g.
Proof.
  rewrite string_length_app, Nat.add_sub.
  induction g as [|c g IH]; simpl.
  - now destruct rest.
  - now rewrite IH.
Qed.

Lemma digit_cases (d : ascii) :
  isDigit d = true ->
  In d ["0"; "1"; "2"; "3"; "4"; "5"; "6"; "7"; "8"; "9"]%char.
Proof.
  destruct d as [[] [] [] [] [] [] [] []]; intro H;
    try discriminate H; simpl; tauto.
Qed.

Lemma digit_is_word (d : ascii) : isDigit d = true -> isWord d = true.
Proof. intro H. unfold isWord. now rewrite H. Qed.

Lemma scoreToken_cases (tok : string) :
  scoreToken tok = true ->
  tok = "10.0" \/ tok = "10" \/
  exists d1 d2, isDigit d1 = true /\ isDigit d2 = true /\
                tok = String d1 (String "." (String d2 "")).
Proof.
  unfold scoreToken. intro H.
  apply orb_true_iff in H. destruct H as [H|H].
  - apply orb_true_iff in H. destruct H as [H|H];
      apply String.eqb_eq in H; auto.
  - right. right. destruct tok as [|d1 [|c [|d2 [|? ?]]]]; try discriminate.
    apply andb_true_iff in H. destruct H as [H H2].
    apply andb_true_iff in H. destruct H as [H1 Hc].
    apply Ascii.eqb_eq in Hc. subst c. now exists d1, d2.
Qed.

Lemma token_value (tok : string) :
  scoreToken tok = true ->
  exists n, parseFloat tok = Some n /\
            numLe zero n = true /\ numLe n ten = true.
Proof.
  intro H. destruct (scoreToken_cases tok H) as [->|[->|(d1 & d2 & H1 & H2 & ->)]].
  - eexists. repeat split; reflexivity.
  - eexists. repeat split; reflexivity.
  - apply digit_cases in H1. apply digit_cases in H2. simpl in H1, H2.
    repeat (destruct H1 as [<-|H1]); try contradiction;
      repeat (destruct H2 as [<-|H2]); try contradiction;
      eexists; repeat split; reflexivity.
Qed.

Lemma tokens_same_start (t1 r1 t2 r2 : string) :
  scoreToken t1 = true -> scoreToken t2 = true -> t1 ++ r1 = t2 ++ r2 ->
  parseFloat t1 = parseFloat t2.
Proof.
  intros H1 H2 E.
  destruct (scoreToken_cases t1 H1) as [->|[->|(a & b & Ha & Hb & ->)]];
    destruct (scoreToken_cases t2 H2) as [->|[->|(c & d & Hc & Hd & ->)]];
    try reflexivity; simpl in E; try discriminate E.
  inversion E; subst. reflexivity.
Qed.

Lemma run_RLit_app (lit rest : string) (prev : option ascii) (k : Cont) :
  run (RLit lit) prev (lit ++ rest) k = k (lastOr prev lit) rest.
Proof.
  revert prev. induction lit as [|c lit IH]; intro prev; simpl; [reflexivity|].
  rewrite Ascii.eqb_refl. apply IH.
Qed.

Lemma run_RLit_inv (lit s : string) (prev : option ascii) (k : Cont)
    (r : string) :
  run (RLit lit) prev s k = Some r ->
  exists rest, s = lit ++ rest /\ k (lastOr prev lit) rest = Some r.
Proof.
  revert prev s. induction lit as [|c lit IH]; intros prev s H; simpl in H.
  - now exists s.
  - destruct s as [|x s]; [discriminate|].
    destruct (Ascii.eqb x c) eqn:E; [|discriminate].
    apply Ascii.eqb_eq in E. subst x.
    destruct (IH _ _ H) as [rest [-> Hk]]. now exists rest.
Qed.

Lemma run_token_inv (prev : option ascii) (s : string) (k : Cont) (r : string) :
  run scoreTokenRe prev s k = Some r ->
  exists tok rest, s = tok ++ rest /\ scoreToken tok = true /\
                   k (lastOr prev tok) rest = Some r.
Proof.
  unfold scoreTokenRe. cbn [run]. intro H.
  destruct (run (RLit "10.0") prev s k) eqn:E1.
  { inversion H; subst. apply run_RLit_inv in E1.
    destruct E1 as [rest [-> Hk]]. now exists "10.0", rest. }
  destruct (run (RLit "10") prev s k) eqn:E2.
  { inversion H; subst. apply run_RLit_inv in E2.
    destruct E2 as [rest [-> Hk]]. now exists "10", rest. }
  destruct s as [|d1 [|c [|d2 rest]]]; try discriminate;
    try (destruct (isDigit d1); discriminate);
    try (destruct (isDigit d1); [destruct (Ascii.eqb c "."%char)|];
         discriminate).
  destruct (isDigit d1) eqn:D1; [|discriminate].
  destruct (Ascii.eqb c ".") eqn:C; [|discriminate].
  destruct (isDigit d2) eqn:D2; [|discriminate].
  apply Ascii.eqb_eq in C. subst c.
  exists (String d1 (String "." (String d2 ""))), rest.
  repeat split; auto. unfold scoreToken. rewrite D1, D2.
  now rewrite orb_true_r.
Qed.

Lemma run_token_none (prev : option ascii) (s : string) (k : Cont) :
  run scoreTokenRe prev s k = None ->
  forall tok rest, s = tok ++ rest -> scoreToken tok = true ->
                   k (lastOr prev tok) rest = None.
Proof.
  unfold scoreTokenRe. cbn [run]. intros H tok rest -> Ht.
  destruct (run (RLit "10.0") prev (tok ++ rest) k) eqn:E1; [discriminate|].
  destruct (run (RLit "10") prev (tok ++ rest) k) eqn:E2; [discriminate|].
  destruct (scoreToken_cases tok Ht) as [->|[->|(d1 & d2 & H1 & H2 & ->)]].
  - now rewrite run_RLit_app in E1.
  - now rewrite run_RLit_app in E2.
  - simpl in H. now rewrite H1, H2 in H.
Qed.

Lemma token_ends (tok : string) (prev : option ascii) (rest : string) :
  scoreToken tok = true ->
  isWordO (lastOr prev tok) = true /\ isWordO (headO (tok ++ rest)) = true.
Proof.
  intro H.
  destruct (scoreToken_cases tok H) as [->|[->|(d1 & d2 & H1 & H2 & ->)]];
    simpl; auto using digit_is_word.
Qed.

Lemma bounded_match_sound (prev : option ascii) (s rest : string) :
  matchAt boundedScoreRe prev s = Some rest ->
  exists tok, s = tok ++ rest /\ scoreToken tok = true /\
              isWordO prev = false /\ isWordO (headO rest) = false.
Proof.
  unfold matchAt, boundedScoreRe. cbn [run]. intro H.
  destruct (xorb (isWordO prev) (isWordO (headO s))) eqn:X; [|discriminate].
  apply run_token_inv in H. destruct H as (tok & rest' & -> & Ht & Hk).
  destruct (token_ends tok prev rest' Ht) as [Hl Hh].
  rewrite Hl in Hk. rewrite Hh in X.
  destruct (isWordO (headO rest')) eqn:W; [discriminate|].
  inversion Hk; subst. exists tok. repeat split; auto.
  now destruct (isWordO prev).
Qed.

Lemma bounded_match_complete (prev : option ascii) (tok post : string) :
  scoreToken tok = true -> isWordO prev = false ->
  isWordO (headO post) = false ->
  matchAt boundedScoreRe prev (tok ++ post) <> None.
Proof.
  intros Ht Hp Hq. unfold matchAt, boundedScoreRe. cbn [run].
  destruct (token_ends tok prev post Ht) as [Hl Hh].
  rewrite Hp, Hh. cbn [xorb].
  intro H. pose proof (run_token_none _ _ _ H tok post eq_refl Ht) as Hk.
  cbv beta in Hk. rewrite Hl, Hq in Hk. discriminate Hk.
Qed.

Lemma exact_never_later (c : ascii) (s : string) :
  searchFrom exactScoreRe (Some c) s = None.
Proof.
  revert c. induction s as [|x s IH]; intro c; [reflexivity|].
  cbn [searchFrom]. unfold matchAt at 1. unfold exactScoreRe at 1.
  cbn [run]. apply IH.
Qed.

Lemma exact_match_sound (s g : string) :
  regexMatch exactScoreRe s = Some g -> g = s /\ scoreToken s = true.
Proof.
  unfold regexMatch. intro H.
  assert (Hm : forall rest, matchAt exactScoreRe None s = Some rest ->
                 rest = "" /\ scoreToken s = true).
  { unfold matchAt, exactScoreRe. cbn [run]. intros rest Hr.
    apply run_token_inv in Hr. destruct Hr as (tok & rest' & -> & Ht & Hk).
    destruct rest'; [|discriminate]. inversion Hk; subst.
    now rewrite string_app_nil_r. }
  destruct s as [|c s]; cbn [searchFrom] in H.
  - destruct (matchAt exactScoreRe None "") as [rest|] eqn:E; [|discriminate].
    destruct (Hm rest eq_refl) as [_ Hs]. discriminate Hs.
  - destruct (matchAt exactScoreRe None (String c s)) as [rest|] eqn:E.
    + destruct (Hm rest eq_refl) as [-> Hs]. split; [|exact Hs].
      inversion H; subst. simpl. f_equal.
      pose proof (takeStr_app s "") as T. rewrite string_app_nil_r in T.
      simpl in T. now rewrite Nat.sub_0_r in T.
    + now rewrite exact_never_later in H.
Qed.

Section Leftmost_search.
Variable r : regex.
Hypothesis matched_prefix :
  forall prev s rest, matchAt r prev s = Some rest -> exists g, s = g ++ rest.

Lemma search_none (s : string) :
  forall prev, searchFrom r prev s = None ->
  forall a b, s = a ++ b -> matchAt r (lastOr prev a) b = None.
Proof.
  induction s as [|c s IH]; intros prev H a b E.
  - destruct a; [|discriminate]. simpl in E. subst b. cbn [searchFrom] in H.
    simpl. now destruct (matchAt r prev "").
  - cbn [searchFrom] in H.
    destruct (matchAt r prev (String c s)) eqn:M; [discriminate|].
    destruct a as [|x a]; simpl in E.
    + subst b. exact M.
    + inversion E; subst. simpl. now apply (IH (Some x)).
Qed.

Lemma search_some (s : string) :
  forall prev g, searchFrom r prev s = Some g ->
  exists a rest,
    s = a ++ g ++ rest /\
    matchAt r (lastOr prev a) (g ++ rest) = Some rest /\
    forall a1 b1, s = a1 ++ b1 -> String.length a1 < String.length a ->
                  matchAt r (lastOr prev a1) b1 = None.
Proof.
  assert (Hhere : forall s prev rest, matchAt r prev s = Some rest ->
            exists a rest0,
              s = a ++ takeStr (String.length s - String.length rest) s ++ rest0 /\
              matchAt r (lastOr prev a)
                (takeStr (String.length s - String.length rest) s ++ rest0)
                = Some rest0 /\
              forall a1 b1, s = a1 ++ b1 -> String.length a1 < String.length a ->
                            matchAt r (lastOr prev a1) b1 = None).
  { intros s0 prev rest M. destruct (matched_prefix _ _ _ M) as [g0 ->].
    rewrite takeStr_app. exists "", rest. simpl. repeat split; auto.
    intros a1 b1 _ L. lia. }
  induction s as [|c s IH]; intros prev g H; cbn [searchFrom] in H.
  - destruct (matchAt r prev "") as [rest|] eqn:M; [|discriminate].
    replace g with (takeStr (String.length "" - String.length rest) "")
      by congruence.
    now apply Hhere.
  - destruct (matchAt r prev (String c s)) as [rest|] eqn:M.
    + replace g
        with (takeStr (String.length (String c s) - String.length rest)
                (String c s)) by congruence.
      now apply Hhere.
    + destruct (IH _ _ H) as (a & rest & E & Hm & Hbefore).
      exists (String c a), rest. simpl. repeat split; auto.
      * now rewrite E.
      * intros [|x a1] b1 E1 L; simpl in E1.
        -- subst b1. exact M.
        -- inversion E1; subst x. simpl. apply Hbefore; auto.
           simpl in L. lia.
Qed.
End Leftmost_search.

Lemma bounded_matched_prefix (prev : option ascii) (s rest : string) :
  matchAt boundedScoreRe prev s = Some rest -> exists g, s = g ++ rest.
Proof.
  intro H. destruct (bounded_match_sound _ _ _ H) as [tok [E _]].
  now exists tok.
Qed.

Lemma parseScoreText_of_match (text g : string) (n : Num) :
  match regexMatch exactScoreRe (cleanedText text) with
  | Some m => Some m
  | None => regexMatch boundedScoreRe (cleanedText text)
  end = Some g ->
  parseFloat g = Some n -> numLe zero n = true -> numLe n ten = true ->
  parseScoreText text = Some n.
Proof.
  intros Hm Hp H0 H10. unfold parseScoreText. cbv zeta.
  change (trim (collapseSpaces text)) with (cleanedText text).
  now rewrite Hm, Hp, H0, H10.
Qed.

(** C3, as stated, fails on its boundary tokens: the dot and the minus
    sign are word boundaries, so that "10.1" holds the token "10" and
    "-1.0" the token "1.0". *)
Lemma boundary_tokens_are_parsed :
  parseScoreText "10.1" = Some ten /\
  parseScoreText "-1.0" = Some (mkNum 1 0) /\
  parseScoreText "10.1" <> None /\ parseScoreText "-1.0" <> None.
Proof. repeat split; try reflexivity; discriminate. Qed.

(** C3, amended.  For every text whose cleaned form contains a score
    token between word boundaries, the parser returns a number: the
    value of the leftmost such token, which lies between 0 and 10; for
    "10.1" that is 10 and for "-1.0" it is 1. *)
Theorem score_of_leftmost_token (text pre tok post : string)
    (H : TokenAt (cleanedText text) pre tok post) :
  (exists n pre0 tok0 post0,
     parseScoreText text = Some n /\
     TokenAt (cleanedText text) pre0 tok0 post0 /\
     (forall p t q, TokenAt (cleanedText text) p t q ->
                    String.length pre0 <= String.length p) /\
     parseFloat tok0 = Some n /\
     numLe zero n = true /\ numLe n ten = true /\
     (String.length pre = String.length pre0 -> parseFloat tok = Some n)) /\
  parseScoreText "10.1" = Some ten /\
  parseScoreText "-1.0" = Some (mkNum 1 0).
Proof.
  split; [|split; reflexivity].
  destruct H as (Hs & Ht & Hl & Hr).
  set (s := cleanedText text) in *.
  destruct (regexMatch exactScoreRe s) as [g|] eqn:E.
  - destruct (exact_match_sound s g E) as [-> Htok].
    destruct (token_value s Htok) as (n & Hp & H0 & H10).
    exists n, "", s, "". split; [|split; [|split; [|split; [|split; [|split]]]]];
      auto.
    + apply (parseScoreText_of_match text s n); auto. fold s. now rewrite E.
    + unfold TokenAt. simpl. now rewrite string_app_nil_r.
    + intros p t q _. simpl. lia.
    + intro L. destruct pre; [|discriminate L]. simpl in Hs.
      rewrite <- Hp. apply (tokens_same_start tok post s ""); auto.
      now rewrite string_app_nil_r.
  - destruct (regexMatch boundedScoreRe s) as [g|] eqn:B.
    + destruct (search_some boundedScoreRe bounded_matched_prefix s None g B)
        as (a & rest & Ea & Hm & Hbefore).
      destruct (bounded_match_sound _ _ _ Hm) as (tok' & Eg & Htok & Hla & Hre).
      apply string_app_cancel_r in Eg. subst tok'.
      destruct (token_value g Htok) as (n & Hp & H0 & H10).
      exists n, a, g, rest.
      split; [|split; [|split; [|split; [|split; [|split]]]]]; auto.
      * apply (parseScoreText_of_match text g n); auto. fold s.
        now rewrite E, B.
      * now repeat split.
      * intros p t q (Ep & Hpt & Hpl & Hpr).
        destruct (Nat.le_gt_cases (String.length a) (String.length p))
          as [L|L]; [exact L|].
        exfalso. apply (bounded_match_complete (lastOr None p) t q Hpt Hpl Hpr).
        now apply Hbefore.
      * intro L. rewrite Ea in Hs.
        destruct (string_app_inv _ _ _ _ Hs (eq_sym L)) as [_ E2].
        rewrite <- Hp. symmetry in E2.
        now apply (tokens_same_start tok post g rest).
    + exfalso. apply (bounded_match_complete (lastOr None pre) tok post Ht Hl Hr).
      now apply (search_none boundedScoreRe s None B pre (tok ++ post)).
Qed.

Lemma score_of_leftmost_token_witness :
  TokenAt (cleanedText "Rated
   7.8 / 10") "Rated " "7.8" " / 10" /\
  exists n pre0 tok0 post0,
    parseScoreText "Rated
   7.8 / 10" = Some n /\
    TokenAt (cleanedText "Rated
   7.8 / 10") pre0 tok0 post0 /\
    (forall p t q, TokenAt (cleanedText "Rated
   7.8 / 10") p t q -> String.length pre0 <= String.length p) /\
    parseFloat tok0 = Some n /\
    numLe zero n = true /\ numLe n ten = true /\
    (String.length "Rated " = String.length pre0 -> parseFloat "7.8" = Some n).
Proof.
  assert (H : TokenAt (cleanedText "Rated
   7.8 / 10") "Rated " "7.8" " / 10")
    by (repeat split; reflexivity).
  split; [exact H|].
  exact (proj1 (score_of_leftmost_token _ _ _ _ H)).
Defined.

Example score_of_rated : parseScoreText "Rated
   7.8 / 10" = Some (mkNum 78 1).
Proof. reflexivity. Qed.

(** * Further properties *)

(** ** Page classifier *)

Lemma plusClass_inv (p : ascii -> bool) (s : string) (k : Cont) (r : string) :
  plusClass p s k = Some r ->
  exists seg rest c,
    s = seg ++ rest /\ allChars p seg = true /\
    lastOr None seg = Some c /\ k (Some c) rest = Some r.
Proof.
  revert r. induction s as [|x s IH]; intros r H; simpl in H; [discriminate|].
  destruct (p x) eqn:Px; [|discriminate].
  destruct (plusClass p s k) as [r'|] eqn:E.
  - inversion H; subst r'.
    destruct (IH r eq_refl) as (seg & rest & c & -> & Ha & Hl & Hk).
    exists (String x seg), rest, c. simpl. rewrite Px, Ha.
    repeat split; auto. destruct seg; [discriminate Hl | exact Hl].
  - exists (String x ""), s, x. simpl. now rewrite Px.
Qed.

Lemma plusClass_complete (p : ascii -> bool) (seg rest : string) (k : Cont)
    (c : ascii) :
  allChars p seg = true -> lastOr None seg = Some c ->
  k (Some c) rest <> None ->
  plusClass p (seg ++ rest) k <> None.
Proof.
  revert c. induction seg as [|x seg IH]; intros c Ha Hl Hk; [discriminate Hl|].
  simpl in Ha. apply andb_true_iff in Ha. destruct Ha as [Px Ha].
  simpl. rewrite Px.
  destruct (plusClass p (seg ++ rest) k) eqn:E; [discriminate|].
  destruct seg as [|y seg].
  - simpl in Hl. inversion Hl; subst. exact Hk.
  - exfalso. apply (IH c Ha); auto.
Qed.

Lemma lastOr_some (s : string) (d : option ascii) :
  s <> "" -> exists c, lastOr d s = Some c.
Proof.
  revert d. induction s as [|x s IH]; intros d H; [contradiction|].
  simpl. destruct s as [|y s]; [now exists x|].
  apply IH. discriminate.
Qed.

Lemma album_tail (prev : option ascii) (s : string) :
  run (RSeq (ROpt (RChar "/")) REol) prev s (fun _ rest => Some rest) <> None
  <-> (s = "" \/ s = "/").
Proof.
  cbn [run]. destruct s as [|c [|d s]].
  - split; [auto | discriminate].
  - destruct (Ascii.eqb c "/") eqn:E.
    + apply Ascii.eqb_eq in E. subst c. split; [auto | discriminate].
    + split; [congruence|]. intros [H|H]; [discriminate|].
      inversion H; subst. discriminate E.
  - destruct (Ascii.eqb c "/"); split; try congruence;
      intros [H|H]; discriminate H.
Qed.

Lemma album_never_later (c : ascii) (s : string) :
  searchFrom albumReviewRe (Some c) s = None.
Proof.
  revert c. induction s as [|x s IH]; intro c; [reflexivity|].
  cbn [searchFrom]. unfold matchAt at 1. unfold albumReviewRe at 1.
  cbn [run]. apply IH.
Qed.

Lemma album_test_at_start (path : string) :
  isAlbumReviewPage path = isSome (matchAt albumReviewRe None path).
Proof.
  unfold isAlbumReviewPage, regexTest, regexMatch.
  destruct path as [|c s]; cbn [searchFrom].
  - now destruct (matchAt albumReviewRe None "").
  - destruct (matchAt albumReviewRe None (String c s)); [reflexivity|].
    now rewrite album_never_later.
Qed.

(** X1.  A path is an album review page exactly when it is
    [/reviews/albums/], one non-empty segment without a slash, and at
    most one closing slash. *)
Theorem album_review_paths (path : string) :
  isAlbumReviewPage path = true <->
  exists seg tail,
    path = "/reviews/albums/" ++ seg ++ tail /\
    seg <> "" /\ allChars notSlash seg = true /\
    (tail = "" \/ tail = "/").
Proof.
  rewrite album_test_at_start. unfold matchAt, albumReviewRe. cbn [run].
  change (fun c : ascii => negb (Ascii.eqb c "/")) with notSlash.
  split.
  - intro H.
    destruct (run (RLit "/reviews/albums/") None path _) as [r|] eqn:E;
      [|discriminate H].
    apply run_RLit_inv in E. destruct E as (rest & -> & Hk).
    apply plusClass_inv in Hk.
    destruct Hk as (seg & tail & c & -> & Ha & Hl & Hk).
    exists seg, tail. repeat split; auto.
    + intros ->. discriminate Hl.
    + apply (album_tail (Some c)). cbn [run]. cbv beta in Hk. congruence.
  - intros (seg & tail & -> & Hne & Ha & Ht).
    rewrite run_RLit_app.
    destruct (lastOr None seg) as [c|] eqn:Hl;
      [|destruct (lastOr_some seg None Hne) as [c Hc]; congruence].
    match goal with
    | |- isSome ?x = true => destruct x eqn:E; [reflexivity|]
    end.
    exfalso. revert E. apply (plusClass_complete notSlash seg tail _ c Ha Hl).
    apply (album_tail (Some c)) in Ht. cbn [run] in Ht. exact Ht.
Qed.

(** ** Watcher: the courses of a page load *)

Lemma run_idle (h : Host) (pathname : string) (events : list PageEvent) :
  forall doc t,
    fold_left (step h pathname) events (mkPage false 0 (mkWorld doc t))
    = mkPage false 0 (mkWorld (latestDocument doc events) t).
Proof.
  induction events as [|ev events IH]; intros doc t; [reflexivity|].
  simpl. destruct ev as [d ms | d o]; apply IH.
Qed.

Lemma run_observing (h : Host) (pathname : string) (events : list PageEvent) :
  forallb barFree events = true ->
  forall doc t,
    fold_left (step h pathname) events (mkPage true 0 (mkWorld doc t))
    = mkPage true 0 (mkWorld (latestDocument doc events) t).
Proof.
  induction events as [|ev events IH]; intros H doc t; [reflexivity|].
  simpl in H. apply andb_true_iff in H. destruct H as [Hev H].
  cbn [fold_left]. destruct ev as [d ms | d o].
  - simpl in Hev. apply negb_true_iff in Hev.
    unfold step, observerCallback. cbn [connected]. rewrite Hev.
    now apply IH.
  - now apply IH.
Qed.

Lemma run_awaiting (h : Host) (pathname : string) (events : list PageEvent) :
  forallb isMutated events = true ->
  forall n doc t,
    fold_left (step h pathname) events (mkPage false n (mkWorld doc t))
    = mkPage false n (mkWorld (latestDocument doc events) t).
Proof.
  induction events as [|ev events IH]; intros H n doc t; [reflexivity|].
  simpl in H. apply andb_true_iff in H. destruct H as [Hev H].
  destruct ev as [d ms | d o]; [|discriminate Hev].
  simpl. now apply IH.
Qed.

Lemma main_observing (pathname : string) (doc : Node) :
  isAlbumReviewPage pathname = true ->
  hasPaywallBar (documentBody doc) = false ->
  documentBody doc <> None ->
  main pathname doc = mkPage true 0 (mkWorld doc [Observe]).
Proof.
  intros Ha Hb Hd. unfold main. rewrite Ha, Hb. cbn [negb].
  destruct (documentBody doc); [reflexivity | contradiction].
Qed.

Lemma pageLoad_observing (h : Host) (pathname : string) (doc : Node)
    (events : list PageEvent) :
  isAlbumReviewPage pathname = true ->
  hasPaywallBar (documentBody doc) = false ->
  documentBody doc <> None ->
  forallb barFree events = true ->
  pageLoad h pathname doc events
    = mkPage true 0 (mkWorld (latestDocument doc events) [Observe]).
Proof.
  intros Ha Hb Hd He.
  unfold pageLoad. rewrite (main_observing pathname doc Ha Hb Hd).
  now apply run_observing.
Qed.

(** X2.  Off the album review pages the script does nothing, whatever
    the page does: no observer, no request, an empty trace; and
    [getPitchforkScore] answers [null] there. *)
Theorem inert_off_album_pages (h : Host) (pathname : string) (doc : Node)
    (events : list PageEvent) (H : isAlbumReviewPage pathname = false) :
  pageLoad h pathname doc events
    = mkPage false 0 (mkWorld (latestDocument doc events) []) /\
  getPitchforkScore pathname doc = None.
Proof.
  split.
  - unfold pageLoad, main. rewrite H. cbn [negb]. apply run_idle.
  - unfold getPitchforkScore. now rewrite H.
Qed.

Lemma inert_off_album_pages_witness :
  isAlbumReviewPage "/reviews/tracks/some-track/" = false /\
  pageLoad stubHost "/reviews/tracks/some-track/" scenarioDoc scenarioEvents
    = mkPage false 0 (mkWorld scenarioDocBar []).
Proof.
  split; [reflexivity|].
  exact (proj1 (inert_off_album_pages stubHost "/reviews/tracks/some-track/"
                  scenarioDoc scenarioEvents eq_refl)).
Defined.

(** X3.  While no batch of mutations holds the bar the observer stays
    connected and the script does nothing else: the trace is the one
    [observe] call, and outcomes announced for requests never sent are
    ignored. *)
Theorem observer_waits (h : Host) (pathname : string) (doc : Node)
    (events : list PageEvent)
    (Ha : isAlbumReviewPage pathname = true)
    (Hb : hasPaywallBar (documentBody doc) = false)
    (Hd : documentBody doc <> None)
    (He : forallb barFree events = true) :
  pageLoad h pathname doc events
    = mkPage true 0 (mkWorld (latestDocument doc events) [Observe]).
Proof.
  unfold pageLoad. rewrite (main_observing pathname doc Ha Hb Hd).
  now apply run_observing.
Qed.

Lemma observer_waits_witness :
  pageLoad stubHost scenarioPath scenarioDoc
    [Mutated scenarioDoc [mkRecord [Text "x"; bodyWrapper]; mkRecord []];
     Settled scenarioDocBar htmlResponse]
  = mkPage true 0 (mkWorld scenarioDocBar [Observe]).
Proof.
  apply (observer_waits stubHost scenarioPath scenarioDoc); try reflexivity.
  discriminate.
Defined.

(** X4.  A false alarm ends the script for the page load.  When the
    first batch that holds the bar arrives on a page that is not
    paywalled, the observer is disconnected, the check runs, no request
    is sent, and nothing that happens later has any effect. *)
Theorem false_alarm_is_final (h : Host) (pathname : string) (doc d : Node)
    (before after : list PageEvent) (ms : list MutationRecord)
    (Ha : isAlbumReviewPage pathname = true)
    (Hb : hasPaywallBar (documentBody doc) = false)
    (Hd : documentBody doc <> None)
    (He : forallb barFree before = true)
    (Hs : scanMutations ms = true)
    (Hp : isPaywalled pathname d = false) :
  pageLoad h pathname doc (before ++ Mutated d ms :: after)%list
    = mkPage false 0
        (mkWorld (latestDocument d after) [Observe; Disconnect; PaywallCheck]).
Proof.
  unfold pageLoad. rewrite fold_left_app.
  fold (pageLoad h pathname doc before).
  rewrite (pageLoad_observing h pathname doc before Ha Hb Hd He).
  cbn [fold_left]. unfold step at 2. cbn [connected].
  unfold observerCallback. rewrite Hs.
  unfold runPaywallCheck, disconnect, log, withDocument.
  cbn [connected pending world document trace app]. rewrite Hp.
  apply run_idle.
Qed.

Lemma false_alarm_is_final_witness :
  isPaywalled scenarioPath openDocBar = false /\
  pageLoad stubHost scenarioPath openDoc
    ([Mutated openDoc [mkRecord [Text "x"]]]
     ++ Mutated openDocBar [mkRecord [plainBar]]
     :: [Mutated openDocBar [mkRecord [paywallBar]];
         Settled openDoc (Response true "OK" (Ok scenarioText))])%list
  = mkPage false 0 (mkWorld openDoc [Observe; Disconnect; PaywallCheck]).
Proof.
  split; [reflexivity|].
  apply (false_alarm_is_final stubHost scenarioPath openDoc openDocBar);
    try reflexivity.
  discriminate.
Defined.

(** X5.  The course of a paywalled page.  When the first batch that
    holds the bar arrives on a paywalled page, one request is sent; the
    mutations reported before its outcome change nothing; and the
    outcome is handled on the document of that time, after which no
    request is pending and the observer stays disconnected. *)
Theorem paywalled_run (h : Host) (pathname : string) (doc d d' : Node)
    (before between : list PageEvent) (ms : list MutationRecord)
    (o : FetchOutcome)
    (Ha : isAlbumReviewPage pathname = true)
    (Hb : hasPaywallBar (documentBody doc) = false)
    (Hd : documentBody doc <> None)
    (He : forallb barFree before = true)
    (Hs : scanMutations ms = true)
    (Hp : isPaywalled pathname d = true)
    (Hm : forallb isMutated between = true) :
  pageLoad h pathname doc
    (before ++ Mutated d ms :: between ++ [Settled d' o])%list
  = mkPage false 0
      (snd (enhanceSettled h o
              (mkWorld d' [Observe; Disconnect; PaywallCheck; FetchRequest]))).
Proof.
  unfold pageLoad. rewrite fold_left_app.
  fold (pageLoad h pathname doc before).
  rewrite (pageLoad_observing h pathname doc before Ha Hb Hd He).
  cbn [fold_left]. unfold step at 2. cbn [connected].
  unfold observerCallback. rewrite Hs.
  unfold runPaywallCheck, disconnect, enhancePaywalledPage, log, withDocument.
  cbn [connected pending world document trace app]. rewrite Hp.
  cbn [connected pending world document trace app].
  rewrite fold_left_app, (run_awaiting h pathname between Hm).
  reflexivity.
Qed.

Lemma paywalled_run_witness :
  pageLoad stubHost scenarioPath scenarioDoc
    ([] ++ Mutated scenarioDocBar [mkRecord [Text "x"; paywallBar]]
        :: [Mutated scenarioDocBar [mkRecord [paywallBar]]]
        ++ [Settled scenarioDocBar htmlResponse])%list
  = mkPage false 0
      (snd (enhanceSettled stubHost htmlResponse
              (mkWorld scenarioDocBar
                 [Observe; Disconnect; PaywallCheck; FetchRequest]))).
Proof.
  apply (paywalled_run stubHost scenarioPath scenarioDoc scenarioDocBar);
    try reflexivity.
  discriminate.
Defined.

(** X6.  When the bar is already on the page as the script starts, the
    check runs at once and no observer is ever installed: one request
    leaves if the page is paywalled, none otherwise, and in the latter
    case nothing that happens later has any effect. *)
Theorem bar_present_at_load (h : Host) (pathname : string) (doc : Node)
    (events : list PageEvent)
    (Ha : isAlbumReviewPage pathname = true)
    (Hb : hasPaywallBar (documentBody doc) = true) :
  main pathname doc =
    (if isPaywalled pathname doc
     then mkPage false 1 (mkWorld doc [PaywallCheck; FetchRequest])
     else mkPage false 0 (mkWorld doc [PaywallCheck])) /\
  count isObserve (trace (world (pageLoad h pathname doc events))) = 0 /\
  connected (pageLoad h pathname doc events) = false /\
  (isPaywalled pathname doc = false ->
   pageLoad h pathname doc events
     = mkPage false 0 (mkWorld (latestDocument doc events) [PaywallCheck])).
Proof.
  assert (Hmain : main pathname doc =
    (if isPaywalled pathname doc
     then mkPage false 1 (mkWorld doc [PaywallCheck; FetchRequest])
     else mkPage false 0 (mkWorld doc [PaywallCheck]))).
  { unfold main. rewrite Ha, Hb. cbn [negb].
    unfold runPaywallCheck, enhancePaywalledPage, log.
    cbn [connected pending world document trace app].
    now destruct (isPaywalled pathname doc). }
  split; [exact Hmain|].
  assert (Hinv : forall evs pg,
            connected pg = false ->
            count isObserve (trace (world pg)) = 0 ->
            connected (fold_left (step h pathname) evs pg) = false /\
            count isObserve
              (trace (world (fold_left (step h pathname) evs pg))) = 0).
  { induction evs as [|ev evs IH]; intros pg Hc Ho; [now split|].
    cbn [fold_left]. apply IH.
    - destruct ev as [d ms | d o]; unfold step; rewrite Hc; [exact Hc|].
      destruct (pending pg); [exact Hc | reflexivity].
    - destruct ev as [d ms | d o]; unfold step; rewrite Hc; [exact Ho|].
      destruct (pending pg); [exact Ho|]. cbn [world].
      destruct (quietly_enhanceSettled h o (world (withDocument d pg)))
        as [t [E Q]].
      rewrite E, count_app. cbn [withDocument world trace].
      rewrite Ho. apply count_quiet; [now destruct e | exact Q]. }
  unfold pageLoad. rewrite Hmain.
  destruct (isPaywalled pathname doc).
  - destruct (Hinv events (mkPage false 1 (mkWorld doc [PaywallCheck; FetchRequest]))
                eq_refl eq_refl) as [H1 H2].
    repeat split; auto. discriminate.
  - rewrite run_idle. repeat split; reflexivity.
Qed.

Lemma bar_present_at_load_witness :
  hasPaywallBar (documentBody openDocBar) = true /\
  isPaywalled scenarioPath openDocBar = false /\
  pageLoad stubHost scenarioPath openDocBar scenarioEvents
    = mkPage false 0 (mkWorld scenarioDocBar [PaywallCheck]).
Proof.
  split; [reflexivity|]. split; [reflexivity|].
  exact (proj2 (proj2 (proj2 (bar_present_at_load stubHost scenarioPath
                                openDocBar scenarioEvents eq_refl eq_refl)))
           eq_refl).
Defined.

(** ** Watcher: what makes it fire *)

Lemma queryList_none (sel : Selector) (cs : list Node) :
  forall i,
    (fix queryList (l : list Node) (i : nat) : option (Path * Node) :=
       match l with
       | [] => None
       | c :: l' =>
           match queryNode sel c with
           | Some (p, e) => Some (i :: p, e)
           | None => queryList l' (S i)
           end
       end) cs i = None ->
    Forall (fun c => queryNode sel c = None) cs.
Proof.
  induction cs as [|c cs IH]; intros i H; [constructor|].
  destruct (queryNode sel c) as [[p e]|] eqn:E; [discriminate|].
  constructor; [exact E | now apply (IH (S i))].
Qed.

Lemma queryNode_complete (sel : Selector) (n : Node) :
  queryNode sel n = None ->
  forall p e, getAt n p = Some e -> matchesSel sel e = false.
Proof.
  induction n as [d|d|t a st cs IH] using Node_nested_ind; intros H p e Hg.
  - destruct p; simpl in Hg; [now inversion Hg | discriminate].
  - destruct p; simpl in Hg; [now inversion Hg | discriminate].
  - cbn [queryNode] in H.
    destruct (matchesSel sel (Element t a st cs)) eqn:M; [discriminate|].
    apply queryList_none in H.
    destruct p as [|i p]; simpl in Hg; [now inversion Hg; subst|].
    destruct (nth_error cs i) as [c|] eqn:E; [|discriminate].
    apply nth_error_In in E. rewrite Forall_forall in IH, H.
    now apply (IH c E (H c E) p e).
Qed.

Lemma hasPaywallBar_query (n : Node) :
  hasPaywallBar (Some n) = isSome (queryNode barSel n).
Proof.
  destruct n as [d|d|t a st cs]; [reflexivity | reflexivity |].
  unfold hasPaywallBar, querySelectorIn. cbn [isElement negb queryNode].
  now destruct (matchesSel barSel (Element t a st cs)).
Qed.

(** X7.  [hasPaywallBar] holds of a node exactly when the node or one of
    its descendants is an element whose class contains
    [InContentBarrierFloatingBar]; it holds of no text or comment. *)
Theorem hasPaywallBar_iff (n : Node) :
  hasPaywallBar (Some n) = true <->
  exists p e, getAt n p = Some e /\ matchesSel barSel e = true.
Proof.
  rewrite hasPaywallBar_query. split.
  - destruct (queryNode barSel n) as [[p e]|] eqn:E; [|discriminate].
    intros _. exists p, e. now apply queryNode_sound.
  - intros (p & e & Hg & Hm).
    destruct (queryNode barSel n) eqn:E; [reflexivity|].
    rewrite (queryNode_complete barSel n E p e Hg) in Hm. discriminate.
Qed.

Lemma scanAdded_exists (nodes : list Node) :
  scanAdded nodes = existsb (fun n => hasPaywallBar (Some n)) nodes.
Proof.
  induction nodes as [|n nodes IH]; [reflexivity|].
  cbn [scanAdded existsb]. rewrite IH.
  destruct n as [d|d|t a st cs]; reflexivity.
Qed.

(** X8.  The observer callback fires on a batch exactly when some added
    node of some record holds the bar: the records and their nodes are
    scanned as one sequence, and a batch without added elements never
    makes it fire. *)
Theorem scanMutations_exists (mutations : list MutationRecord) :
  scanMutations mutations
    = existsb (fun n => hasPaywallBar (Some n)) (flat_map addedNodes mutations).
Proof.
  induction mutations as [|m ms IH]; [reflexivity|].
  cbn [scanMutations flat_map]. rewrite existsb_app, <- IH, scanAdded_exists.
  now destruct (existsb _ (addedNodes m)).
Qed.

Lemma prefix_trans (a b c : string) :
  String.prefix a b = true -> String.prefix b c = true ->
  String.prefix a c = true.
Proof.
  revert b c. induction a as [|x a IH]; intros b c H1 H2;
    [now destruct c|].
  destruct b as [|y b]; [simpl in H1; discriminate H1|].
  destruct c as [|z c]; [discriminate|].
  simpl in *.
  destruct (ascii_dec x y) as [->|]; [|discriminate].
  destruct (ascii_dec y z) as [->|]; [|discriminate].
  now apply (IH b c).
Qed.

Lemma includes_prefix (a b v : string) :
  String.prefix a b = true -> includes b v = true -> includes a v = true.
Proof.
  intro Hp. induction v as [|c v IH]; cbn [includes]; unfold startsWith;
    intro H.
  - rewrite orb_false_r in *. now apply (prefix_trans a b "").
  - apply orb_true_iff in H. apply orb_true_iff. destruct H as [H|H].
    + left. now apply (prefix_trans a b).
    + right. now apply IH.
Qed.

Lemma barLink_matches_bar (e : Node) :
  matchesSel barLinkSel e = true -> matchesSel barSel e = true.
Proof.
  destruct e as [d|d|t a st cs]; try discriminate.
  unfold barLinkSel, barSel. cbn [matchesSel].
  destruct (getAttribute "class" a) as [v|]; [|discriminate].
  cbn [String.eqb negb andb]. simpl negb. simpl andb.
  apply includes_prefix. reflexivity.
Qed.

Lemma documentBody_child (doc body : Node) :
  documentBody doc = Some body -> exists i, getAt doc [i] = Some body.
Proof.
  destruct doc as [d|d|t a st cs]; try discriminate. cbn [documentBody].
  intro H. apply find_some in H. destruct H as [Hin _].
  apply In_nth_error in Hin. destruct Hin as [i Hi].
  exists i. simpl. now rewrite Hi.
Qed.

(** X9.  A bar link makes both signals hold of what the script tests.
    If a node handed to [hasPaywallBar], [document.body] as the script
    starts or an added node in the callback, is or contains an element
    whose class contains [InContentBarrierFloatingBarLink], then
    [hasPaywallBar] holds of it; and where that node is the body of the
    document, [isPaywalled] answers [true] as well. *)
Theorem link_signal_implies_bar (pathname : string) (n : Node)
    (H : queryNode barLinkSel n <> None) :
  hasPaywallBar (Some n) = true /\
  forall doc, documentBody doc = Some n ->
    hasPaywallBar (documentBody doc) = true /\
    isPaywalled pathname doc = true.
Proof.
  destruct (queryNode barLinkSel n) as [[p e]|] eqn:E; [|contradiction].
  destruct (queryNode_sound _ _ _ _ E) as [Hg Hm].
  assert (Hbar : hasPaywallBar (Some n) = true).
  { apply hasPaywallBar_iff. exists p, e.
    split; [exact Hg | now apply barLink_matches_bar]. }
  split; [exact Hbar|].
  intros doc Hd. rewrite Hd. split; [exact Hbar|].
  destruct (documentBody_child doc n Hd) as [i Hi].
  unfold isPaywalled, querySelector.
  destruct (queryNode barLinkSel doc) as [r|] eqn:Q; [reflexivity|].
  exfalso.
  assert (Hge : getAt doc ([i] ++ p)%list = Some e)
    by now rewrite getAt_app, Hi.
  rewrite (queryNode_complete barLinkSel doc Q _ e Hge) in Hm.
  discriminate Hm.
Qed.

Lemma link_signal_implies_bar_witness :
  queryNode barLinkSel scenarioBodyBar <> None /\
  documentBody scenarioDocBar = Some scenarioBodyBar /\
  hasPaywallBar (documentBody scenarioDocBar) = true /\
  isPaywalled "/elsewhere" scenarioDocBar = true.
Proof.
  assert (H : queryNode barLinkSel scenarioBodyBar <> None)
    by (vm_compute; discriminate).
  split; [exact H|]. split; [reflexivity|].
  exact (proj2 (link_signal_implies_bar "/elsewhere" scenarioBodyBar H)
           scenarioDocBar eq_refl).
Defined.

(** ** Escaping: what the output can hold *)

Lemma occurs_app (c : ascii) (a b : string) :
  occurs c (a ++ b) = occurs c a || occurs c b.
Proof.
  induction a as [|x a IH]; simpl; [reflexivity|].
  now rewrite IH, orb_assoc.
Qed.

Lemma occurs_substChars (c : ascii) (f : ascii -> string) (s : string) :
  (forall x, occurs c (f x) = false) -> occurs c (substChars f s) = false.
Proof.
  intro H. induction s as [|x s IH]; simpl; [reflexivity|].
  now rewrite occurs_app, H, IH.
Qed.

Lemma textEntity_plain (c x : ascii) :
  textSpecial c = true -> Ascii.eqb c "&" = false ->
  occurs c (textEntity x) = false.
Proof.
  intros Hs Ha. unfold textEntity.
  unfold textSpecial in Hs. rewrite Ha in Hs. cbn [orb] in Hs.
  apply orb_true_iff in Hs.
  destruct (Ascii.eqb x "&") eqn:E1;
    [destruct Hs as [Hs|Hs]; apply Ascii.eqb_eq in Hs; subst; reflexivity|].
  destruct (Ascii.eqb x "<") eqn:E2;
    [destruct Hs as [Hs|Hs]; apply Ascii.eqb_eq in Hs; subst; reflexivity|].
  destruct (Ascii.eqb x ">") eqn:E3;
    [destruct Hs as [Hs|Hs]; apply Ascii.eqb_eq in Hs; subst; reflexivity|].
  simpl. rewrite orb_false_r.
  destruct Hs as [Hs|Hs]; apply Ascii.eqb_eq in Hs; subst; assumption.
Qed.

Lemma attrEntity_plain (c x : ascii) :
  attrSpecial c = true -> Ascii.eqb c "&" = false ->
  occurs c (attrEntity x) = false.
Proof.
  intros Hs Ha. unfold attrEntity.
  unfold attrSpecial in Hs. apply orb_true_iff in Hs.
  destruct (Ascii.eqb x dquote) eqn:E.
  - destruct Hs as [Hs|Hs].
    + apply Ascii.eqb_eq in Hs. subst. reflexivity.
    + unfold textSpecial in Hs. rewrite Ha in Hs. cbn [orb] in Hs.
      apply orb_true_iff in Hs.
      destruct Hs as [Hs|Hs]; apply Ascii.eqb_eq in Hs; subst; reflexivity.
  - destruct Hs as [Hs|Hs]; [|now apply textEntity_plain].
    apply Ascii.eqb_eq in Hs. subst c. unfold textEntity.
    destruct (Ascii.eqb x "&"); [reflexivity|].
    destruct (Ascii.eqb x "<"); [reflexivity|].
    destruct (Ascii.eqb x ">"); [reflexivity|].
    simpl. now rewrite E.
Qed.

(** X10.  Escaped text holds no [<] and no [>], and an escaped attribute
    value holds none of these and no double quote: in the output, every
    character the escaping replaces, the ampersand apart, is gone. *)
Theorem escaped_output_is_inert (s : string) :
  occurs "<" (escapeText s) = false /\
  occurs ">" (escapeText s) = false /\
  occurs "<" (escapeAttr s) = false /\
  occurs ">" (escapeAttr s) = false /\
  occurs dquote (escapeAttr s) = false.
Proof.
  rewrite escapeText_subst, escapeAttr_subst.
  repeat split; apply occurs_substChars; intro x;
    first [ now apply textEntity_plain | now apply attrEntity_plain ].
Qed.

Lemma substChars_plain (f : ascii -> string) (special : ascii -> bool)
    (s : string) :
  (forall c, special c = false -> f c = String c "") ->
  allChars (fun c => negb (special c)) s = true -> substChars f s = s.
Proof.
  intro Hf. induction s as [|c s IH]; simpl; [reflexivity|].
  intro H. apply andb_true_iff in H. destruct H as [Hc Hs].
  apply negb_true_iff in Hc. now rewrite (Hf c Hc), IH.
Qed.

Lemma textEntity_of_plain (c : ascii) :
  textSpecial c = false -> textEntity c = String c "".
Proof.
  unfold textSpecial, textEntity. intro H.
  apply orb_false_iff in H. destruct H as [H H3].
  apply orb_false_iff in H. destruct H as [H1 H2].
  now rewrite H1, H2, H3.
Qed.

Lemma attrEntity_of_plain (c : ascii) :
  attrSpecial c = false -> attrEntity c = String c "".
Proof.
  unfold attrSpecial, attrEntity. intro H.
  apply orb_false_iff in H. destruct H as [H1 H2].
  rewrite H1. now apply textEntity_of_plain.
Qed.

(** X11.  A string without [&], [<] and [>] is its own escaped text, and
    one that has no double quote either is its own escaped attribute
    value. *)
Theorem plain_strings_unchanged (s : string) :
  (allChars (fun c => negb (textSpecial c)) s = true -> escapeText s = s) /\
  (allChars (fun c => negb (attrSpecial c)) s = true -> escapeAttr s = s).
Proof.
  split; intro H.
  - rewrite escapeText_subst.
    now apply (substChars_plain textEntity textSpecial s textEntity_of_plain).
  - rewrite escapeAttr_subst.
    now apply (substChars_plain attrEntity attrSpecial s attrEntity_of_plain).
Qed.

Lemma plain_strings_unchanged_witness :
  escapeText ("The " ++ String dquote "best" ++ String dquote " of 2020")
    = "The " ++ String dquote "best" ++ String dquote " of 2020" /\
  escapeAttr "/reviews/albums/x/?a=1;b=2" = "/reviews/albums/x/?a=1;b=2".
Proof.
  split.
  - exact (proj1 (plain_strings_unchanged
                    ("The " ++ String dquote "best" ++ String dquote " of 2020"))
             eq_refl).
  - exact (proj2 (plain_strings_unchanged "/reviews/albums/x/?a=1;b=2") eq_refl).
Defined.

Ltac entity_cases c :=
  let A := fresh "A" in
  let B := fresh "B" in
  let C := fresh "C" in
  destruct (Ascii.eqb c "&") eqn:A;
  [apply Ascii.eqb_eq in A; subst c
  |destruct (Ascii.eqb c "<") eqn:B;
   [apply Ascii.eqb_eq in B; subst c
   |destruct (Ascii.eqb c ">") eqn:C;
    [apply Ascii.eqb_eq in C; subst c|]]].

Ltac refute_eqb :=
  exfalso;
  repeat match goal with
         | E : Ascii.eqb _ _ = false |- _ =>
             first [vm_compute in E; discriminate E | clear E]
         end.

Lemma textEntity_step (c1 c2 : ascii) (r1 r2 : string) :
  textEntity c1 ++ r1 = textEntity c2 ++ r2 -> c1 = c2 /\ r1 = r2.
Proof.
  unfold textEntity. entity_cases c1; entity_cases c2;
    simpl; intro H; inversion H; subst;
    first [split; reflexivity | refute_eqb].
Qed.

Lemma attrEntity_step (c1 c2 : ascii) (r1 r2 : string) :
  attrEntity c1 ++ r1 = attrEntity c2 ++ r2 -> c1 = c2 /\ r1 = r2.
Proof.
  unfold attrEntity.
  destruct (Ascii.eqb c1 dquote) eqn:D1; destruct (Ascii.eqb c2 dquote) eqn:D2.
  - apply Ascii.eqb_eq in D1, D2. subst. simpl. intro H. inversion H.
    now split.
  - apply Ascii.eqb_eq in D1. subst c1. unfold textEntity.
    entity_cases c2; simpl; intro H; inversion H; subst; refute_eqb.
  - apply Ascii.eqb_eq in D2. subst c2. unfold textEntity.
    entity_cases c1; simpl; intro H; inversion H; subst; refute_eqb.
  - apply textEntity_step.
Qed.

Lemma substChars_injective (f : ascii -> string) :
  (forall c, f c <> "") ->
  (forall c1 c2 r1 r2, f c1 ++ r1 = f c2 ++ r2 -> c1 = c2 /\ r1 = r2) ->
  forall s1 s2, substChars f s1 = substChars f s2 -> s1 = s2.
Proof.
  intros Hne Hstep. induction s1 as [|c1 s1 IH]; intros [|c2 s2] H; simpl in H.
  - reflexivity.
  - exfalso. destruct (f c2) eqn:E; [now apply (Hne c2) | discriminate H].
  - exfalso. destruct (f c1) eqn:E; [now apply (Hne c1) | discriminate H].
  - destruct (Hstep _ _ _ _ H) as [-> Hr]. f_equal. now apply IH.
Qed.

Lemma textEntity_nonempty (c : ascii) : textEntity c <> "".
Proof.
  unfold textEntity. destruct (Ascii.eqb c "&"); [discriminate|].
  destruct (Ascii.eqb c "<"); [discriminate|].
  destruct (Ascii.eqb c ">"); discriminate.
Qed.

Lemma attrEntity_nonempty (c : ascii) : attrEntity c <> "".
Proof.
  unfold attrEntity. destruct (Ascii.eqb c dquote); [discriminate|].
  apply textEntity_nonempty.
Qed.

(** X12.  Escaping loses nothing: two strings with the same escaped text
    are the same string, and so are two strings with the same escaped
    attribute value. *)
Theorem escaping_is_injective (s1 s2 : string) :
  (escapeText s1 = escapeText s2 -> s1 = s2) /\
  (escapeAttr s1 = escapeAttr s2 -> s1 = s2).
Proof.
  rewrite !escapeText_subst, !escapeAttr_subst. split.
  - apply substChars_injective;
      [apply textEntity_nonempty | apply textEntity_step].
  - apply substChars_injective;
      [apply attrEntity_nonempty | apply attrEntity_step].
Qed.

Lemma escaping_is_injective_witness :
  escapeText "a<b" = escapeText ("a" ++ "<b") /\ "a<b" = "a" ++ "<b".
Proof.
  split; [reflexivity|].
  exact (proj1 (escaping_is_injective "a<b" ("a" ++ "<b")) eq_refl).
Defined.

(** ** Markup reconstruction: attributes and children *)

Lemma lookup_skip (k k' : string) (v : JSValue)
    (pre post : list (string * JSValue)) :
  String.eqb k' k = false ->
  lookup k (pre ++ (k', v) :: post) = lookup k (pre ++ post).
Proof.
  intro H. induction pre as [|[a b] pre IH]; simpl.
  - now rewrite H.
  - now rewrite IH.
Qed.

Lemma isAdNode_skip (tag : JSValue) (k : string) (v : JSValue)
    (pre post : list (string * JSValue)) :
  String.eqb k "position" = false ->
  isAdNode tag (JObj (pre ++ (k, v) :: post))
    = isAdNode tag (JObj (pre ++ post)).
Proof.
  intro H. unfold isAdNode, hasKey. now rewrite (lookup_skip "position" k v).
Qed.

Lemma renderElement_external (t : string) (v : JSValue)
    (pre post : list (string * JSValue)) (r : Result (list string)) :
  renderElement t (pre ++ ("isExternal", v) :: post) r
    = renderElement t (pre ++ post) r.
Proof.
  unfold renderElement.
  rewrite (isAdNode_skip (JStr t) "isExternal" v pre post eq_refl).
  now rewrite !filter_app.
Qed.

(** X13.  An [isExternal] attribute never reaches the markup and is never
    converted to a string: with it or without it, whatever its value,
    the node renders the same. *)
Theorem isExternal_is_dropped (t : string) (v : JSValue)
    (pre post : list (string * JSValue)) (children : list JSValue) :
  bodyArrayToHtml
    (JArr (JStr t :: JObj (pre ++ ("isExternal", v) :: post) :: children))
  = bodyArrayToHtml (JArr (JStr t :: JObj (pre ++ post) :: children)).
Proof. cbn [bodyArrayToHtml]. apply renderElement_external. Qed.

Lemma renderElement_children (t : string) (attrs : list (string * JSValue))
    (cs : list JSValue) :
  renderElement t attrs (sequence (map bodyArrayToHtml cs)) =
  if isAdNode (JStr t) (JObj attrs) then Ok ""
  else
    match sequence (map renderAttr
             (filter (fun kv => negb (String.eqb (fst kv) "isExternal"))
                attrs)) with
    | Throw e => Throw e
    | Ok l =>
        match childMarkup cs with
        | Throw e => Throw e
        | Ok m =>
            Ok ((if negb (String.eqb (join " " l) "")
                 then "<" ++ t ++ " " ++ join " " l ++ ">"
                 else "<" ++ t ++ ">") ++ m ++ "</" ++ t ++ ">")
        end
    end.
Proof.
  unfold renderElement, childMarkup.
  destruct (isAdNode (JStr t) (JObj attrs)); [reflexivity|].
  destruct (sequence (map renderAttr _)); [|reflexivity].
  now destruct (sequence (map bodyArrayToHtml cs)).
Qed.

Lemma childMarkup_app (a b : list JSValue) :
  childMarkup (a ++ b)%list =
  match childMarkup a with
  | Throw e => Throw e
  | Ok x => match childMarkup b with
            | Throw e => Throw e
            | Ok y => Ok (x ++ y)
            end
  end.
Proof.
  induction a as [|c a IH].
  - simpl app. change (childMarkup []) with (@Ok string "").
    now destruct (childMarkup b).
  - simpl app. rewrite !childMarkup_cons, IH.
    destruct (bodyArrayToHtml c); [|reflexivity].
    destruct (childMarkup a); [|reflexivity].
    destruct (childMarkup b); [|reflexivity].
    now rewrite string_app_assoc.
Qed.

Lemma bodyArrayToHtml_no_attrs (t : string) (first : JSValue)
    (rest : list JSValue) :
  isObject first = false ->
  bodyArrayToHtml (JArr (JStr t :: first :: rest))
    = renderElement t [] (sequence (map bodyArrayToHtml (first :: rest))).
Proof. intro H. destruct first; try reflexivity. discriminate H. Qed.

(** X14.  A child that is neither a string nor an array (a number, a
    boolean, [null], an object) adds nothing to the markup of its parent
    wherever it stands after the attribute set, or after a first child
    that is not an object: the node renders as it does without that
    child.  (Right after the tag such a child is not covered: there it
    keeps a following object from being read as the attribute set.) *)
Theorem stray_children_vanish (t : string) (pre post : list JSValue)
    (c : JSValue) (Hs : isStr c = false) (Ha : isArray c = false) :
  (forall attrs,
     bodyArrayToHtml (JArr (JStr t :: JObj attrs :: pre ++ c :: post))
     = bodyArrayToHtml (JArr (JStr t :: JObj attrs :: pre ++ post))) /\
  (forall first, isObject first = false ->
     bodyArrayToHtml (JArr (JStr t :: first :: pre ++ c :: post))
     = bodyArrayToHtml (JArr (JStr t :: first :: pre ++ post))).
Proof.
  assert (Hc : bodyArrayToHtml c = Ok "")
    by (destruct c; try reflexivity; discriminate).
  split.
  - intro attrs. cbn [bodyArrayToHtml]. rewrite !renderElement_children.
    now rewrite (childMarkup_skip pre post c Hc).
  - intros first Hf. rewrite !bodyArrayToHtml_no_attrs by exact Hf.
    rewrite !renderElement_children.
    change (first :: pre ++ c :: post)%list
      with ((first :: pre) ++ c :: post)%list.
    now rewrite (childMarkup_skip (first :: pre) post c Hc).
Qed.

Lemma stray_children_vanish_witness :
  bodyArrayToHtml
    (JArr (JStr "p" :: JObj [("class", JStr "x")]
           :: [JStr "a"] ++ JObj [("class", JStr "y")] :: [JStr "b"]))
  = bodyArrayToHtml
      (JArr (JStr "p" :: JObj [("class", JStr "x")]
             :: [JStr "a"] ++ [JStr "b"])) /\
  bodyArrayToHtml
    (JArr (JStr "p" :: JStr "a" :: [] ++ JNull :: [JObj [("class", JStr "y")]]))
  = bodyArrayToHtml
      (JArr (JStr "p" :: JStr "a" :: [] ++ [JObj [("class", JStr "y")]])).
Proof.
  split.
  - exact (proj1 (stray_children_vanish "p" [JStr "a"] [JStr "b"]
                    (JObj [("class", JStr "y")]) eq_refl eq_refl)
             [("class", JStr "x")]).
  - exact (proj2 (stray_children_vanish "p" [] [JObj [("class", JStr "y")]]
                    JNull eq_refl eq_refl)
             (JStr "a") eq_refl).
Defined.

(** Right after the tag a stray child shields the object that follows
    it: with the child the object is a child and renders as nothing,
    without it the object is the attribute set. *)
Example stray_first_child_shields :
  bodyArrayToHtml (JArr [JStr "p"; JNull; JObj [("a", JNum (mkNum 1 0))]])
    = Ok "<p></p>" /\
  bodyArrayToHtml (JArr [JStr "p"; JObj [("a", JNum (mkNum 1 0))]])
    = Ok ("<p a=" ++ quoted "1" ++ "></p>").
Proof. split; reflexivity. Qed.

(** X15.  The markup of an element is built from that of its children.
    A node whose tag does not mention "ad", with an empty attribute set,
    renders as its tag name, copied as it is, around the markup of its
    children; the markup of a sequence of children is the concatenation
    of the markups of its parts; and a string child is its escaped
    text. *)
Theorem markup_composes (t : string) (children : list JSValue)
    (H : includes "ad" (toLowerCase t) = false) :
  bodyArrayToHtml (JArr (JStr t :: JObj [] :: children)) =
    match childMarkup children with
    | Throw e => Throw e
    | Ok m => Ok ("<" ++ t ++ ">" ++ m ++ "</" ++ t ++ ">")
    end /\
  (forall a b,
     childMarkup (a ++ b)%list =
     match childMarkup a with
     | Throw e => Throw e
     | Ok x => match childMarkup b with
               | Throw e => Throw e
               | Ok y => Ok (x ++ y)
               end
     end) /\
  (forall s, childMarkup [JStr s] = Ok (escapeText s)).
Proof.
  split; [|split].
  - cbn [bodyArrayToHtml]. rewrite renderElement_children.
    unfold isAdNode. rewrite H. unfold hasKey. cbn [lookup filter map sequence].
    destruct (childMarkup children) as [m|e]; [|reflexivity].
    f_equal. simpl. now rewrite string_app_assoc.
  - apply childMarkup_app.
  - reflexivity.
Qed.

Lemma markup_composes_witness :
  bodyArrayToHtml (JArr (JStr "em>" :: JObj [] :: [JStr "a&b"]))
  = Ok "<em>>a&amp;b</em>>".
Proof.
  exact (proj1 (markup_composes "em>" [JStr "a&b"] eq_refl)).
Defined.

(** ** Fetcher and patcher: successes, failures and what is touched *)

Lemma fetch_ok_world (h : Host) (o : FetchOutcome) (w w' : World)
    (v : JSValue) :
  fetchReviewJson h o w = (Ok v, w') -> w' = w.
Proof.
  unfold fetchReviewJson. destruct o as [e|ok st body]; [discriminate|].
  destruct (negb ok); [discriminate|].
  destruct body as [text|e]; unfold bind at 1; unfold liftR at 1;
    [|discriminate].
  destruct (String.eqb (trim text) "" || startsWith "<" (trim text));
    [discriminate|].
  destruct (JSON_parse h (trim text)); [|discriminate].
  unfold ret. intro H. now inversion H.
Qed.

(** X16.  The fetcher resolves exactly for a response with a success
    status whose trimmed text is not empty, does not begin with [<] and
    parses: it then resolves with the parsed value, without a warning;
    and, resolved or rejected, it leaves the document as it is. *)
Theorem fetch_resolves_iff (h : Host) (ok : bool) (st text : string)
    (w : World) (v : JSValue) :
  (fst (fetchReviewJson h (Response ok st (Ok text)) w) = Ok v <->
   (ok = true /\ trim text <> "" /\ startsWith "<" (trim text) = false /\
    JSON_parse h (trim text) = Some v)) /\
  (fst (fetchReviewJson h (Response ok st (Ok text)) w) = Ok v ->
   snd (fetchReviewJson h (Response ok st (Ok text)) w) = w) /\
  (forall o, document (snd (fetchReviewJson h o w)) = document w).
Proof.
  split; [|split].
  - unfold fetchReviewJson. destruct ok; cbn [negb];
      [|simpl; split; [discriminate | intros [H _]; discriminate H]].
    unfold bind at 1. unfold liftR at 1.
    destruct (String.eqb (trim text) "") eqn:E1.
    { apply String.eqb_eq in E1. simpl.
      split; [discriminate | intros (_ & H & _); contradiction]. }
    apply String.eqb_neq in E1. cbn [orb].
    destruct (startsWith "<" (trim text)) eqn:E2.
    { simpl. split; [discriminate | intros (_ & _ & H & _); discriminate H]. }
    destruct (JSON_parse h (trim text)) as [x|] eqn:E3; simpl.
    + split.
      * intro H. inversion H; subst. auto.
      * intros (_ & _ & _ & H). now inversion H.
    + split; [discriminate | intros (_ & _ & _ & H); discriminate H].
  - intro H.
    destruct (fetchReviewJson h (Response ok st (Ok text)) w) as [r w'] eqn:E.
    simpl in H. subst r. simpl.
    exact (fetch_ok_world h (Response ok st (Ok text)) w w' v E).
  - intro o. destruct (fetch_failure_trace h o w) as [t [E _]]. now rewrite E.
Qed.

Lemma fetch_resolves_iff_witness :
  fst (fetchReviewJson stubHost (Response true "OK" (Ok ("
 " ++ scenarioText ++ "  ")))
         (mkWorld scenarioDocBar [FetchRequest])) = Ok scenarioPayload /\
  snd (fetchReviewJson stubHost (Response true "OK" (Ok ("
 " ++ scenarioText ++ "  ")))
         (mkWorld scenarioDocBar [FetchRequest]))
    = mkWorld scenarioDocBar [FetchRequest].
Proof.
  pose proof (fetch_resolves_iff stubHost true "OK" ("
 " ++ scenarioText ++ "  ") (mkWorld scenarioDocBar [FetchRequest])
                scenarioPayload) as [H1 [H2 _]].
  assert (E : fst (fetchReviewJson stubHost (Response true "OK" (Ok ("
 " ++ scenarioText ++ "  "))) (mkWorld scenarioDocBar [FetchRequest]))
              = Ok scenarioPayload).
  { apply H1. repeat split; try reflexivity. vm_compute. discriminate. }
  split; [exact E | exact (H2 E)].
Defined.

Lemma reviewBody_of_non_object (data : JSValue) :
  match data with JObj _ => False | _ => True end ->
  exists body, reviewBody data = Ok body /\ isArray body = false.
Proof.
  destruct data as [| | b | n | s | items | props]; intro H;
    try contradiction; unfold reviewBody, andGet.
  - now exists JUndefined.
  - now exists JNull.
  - destruct b; simpl; [now exists JUndefined | now exists (JBool false)].
  - destruct (truthy (JNum n)) eqn:T; cbn [getProp rbind];
      [now exists JUndefined | rewrite T; now exists (JNum n)].
  - destruct (truthy (JStr s)) eqn:T; cbn [getProp rbind];
      [now exists JUndefined | rewrite T; now exists (JStr s)].
  - simpl. now exists JUndefined.
Qed.

Lemma enhanceThen_not_array (h : Host) (data body : JSValue) (w : World) :
  reviewBody data = Ok body -> isArray body = false ->
  enhanceThen h data w =
    (Ok tt, mkWorld (document w)
              (trace w ++ [Warn "[Forklift] review.body is not an array"])%list).
Proof.
  intros Hb Ha. unfold enhanceThen.
  unfold bind at 1. unfold liftR at 1. now rewrite Hb, Ha.
Qed.

(** X17.  A payload without an array at [review.body] changes nothing on
    the page: the callback warns once and returns, and the score is not
    restored even where the payload has one.  So it is for every payload
    that is not an object. *)
Theorem malformed_payload_is_skipped (h : Host) (data : JSValue) (w : World) :
  (forall body, reviewBody data = Ok body -> isArray body = false ->
     enhanceThen h data w =
       (Ok tt, mkWorld (document w)
                 (trace w
                  ++ [Warn "[Forklift] review.body is not an array"])%list)) /\
  (match data with JObj _ => False | _ => True end ->
     enhanceThen h data w =
       (Ok tt, mkWorld (document w)
                 (trace w
                  ++ [Warn "[Forklift] review.body is not an array"])%list)).
Proof.
  split.
  - intros body Hb Ha. now apply (enhanceThen_not_array h data body).
  - intro H. destruct (reviewBody_of_non_object data H) as [body [Hb Ha]].
    now apply (enhanceThen_not_array h data body).
Qed.

Lemma malformed_payload_is_skipped_witness :
  enhanceThen stubHost textBodyPayload (mkWorld scenarioDocBar [])
  = (Ok tt, mkWorld scenarioDocBar
              [Warn "[Forklift] review.body is not an array"]) /\
  enhanceThen stubHost (JArr [JStr "p"; JStr "text"]) (mkWorld scenarioDocBar [])
  = (Ok tt, mkWorld scenarioDocBar
              [Warn "[Forklift] review.body is not an array"]).
Proof.
  split.
  - exact (proj1 (malformed_payload_is_skipped stubHost textBodyPayload
                    (mkWorld scenarioDocBar []))
             (JStr "<p>text</p>") eq_refl eq_refl).
  - exact (proj2 (malformed_payload_is_skipped stubHost
                    (JArr [JStr "p"; JStr "text"]) (mkWorld scenarioDocBar []))
             I).
Defined.

(** X18.  The promise chain of [enhancePaywalledPage] never rejects:
    whatever the outcome of the request and whatever the payload, every
    exception ends in its [catch]. *)
Theorem settle_never_rejects (h : Host) (o : FetchOutcome) (w : World) :
  fst (enhanceSettled h o w) = Ok tt.
Proof.
  unfold enhanceSettled, catch.
  destruct ((data <- fetchReviewJson h o;; enhanceThen h data) w)
    as [[[]|e] w']; reflexivity.
Qed.

Lemma enhanceSettled_resolved (h : Host) (o : FetchOutcome) (w : World)
    (data : JSValue) :
  fst (fetchReviewJson h o w) = Ok data ->
  enhanceSettled h o w = catch (enhanceThen h data) enhanceCatch w.
Proof.
  intro H. unfold enhanceSettled, catch, bind.
  destruct (fetchReviewJson h o w) as [r w'] eqn:E. simpl in H. subst r.
  now rewrite (fetch_ok_world h o w w' data E).
Qed.

(** X19.  An exception raised while the markup is rebuilt is reported as
    a failed fetch: the document is left as it was and the one warning
    of the [catch] is traced. *)
Theorem render_failure_is_reported (h : Host) (o : FetchOutcome) (w : World)
    (data body : JSValue) (e : Exn)
    (Hf : fst (fetchReviewJson h o w) = Ok data)
    (Hb : reviewBody data = Ok body) (Ha : isArray body = true)
    (Hh : bodyArrayToHtml body = Throw e) :
  enhanceSettled h o w =
    (Ok tt, mkWorld (document w)
              (trace w ++ [Warn "[Forklift] Failed to fetch review JSON"])%list).
Proof.
  rewrite (enhanceSettled_resolved h o w data Hf).
  unfold catch, enhanceThen.
  unfold bind at 1. unfold liftR at 1. rewrite Hb, Ha. cbn [negb].
  unfold bind at 1. unfold liftR at 1. now rewrite Hh.
Qed.

Lemma render_failure_is_reported_witness :
  enhanceSettled (hostWith oddBodyPayload) jsonResponse
    (mkWorld scenarioDocBar [FetchRequest])
  = (Ok tt, mkWorld scenarioDocBar
              [FetchRequest; Warn "[Forklift] Failed to fetch review JSON"]).
Proof.
  exact (render_failure_is_reported (hostWith oddBodyPayload) jsonResponse
           (mkWorld scenarioDocBar [FetchRequest]) oddBodyPayload
           unprintableNode
           (TypeError "Cannot convert object to primitive value")
           eq_refl eq_refl eq_refl eq_refl).
Defined.

(** X20.  A score that cannot be converted to a string leaves the patch
    half done: the body has been replaced, the score box is as it was,
    and the failure is reported as a failed fetch. *)
Theorem score_failure_after_body (h : Host) (o : FetchOutcome) (w : World)
    (data body score : JSValue) (html : string) (e : Exn)
    (p q : Path) (bw sw : Node)
    (Hf : fst (fetchReviewJson h o w) = Ok data)
    (Hb : reviewBody data = Ok body) (Ha : isArray body = true)
    (Hh : bodyArrayToHtml body = Ok html)
    (Hq : querySelector bodyWrapperSel (document w) = Some (p, bw))
    (Hs : reviewScore data = Ok score)
    (Hn : match score with JUndefined | JNull => False | _ => True end)
    (Hbox : querySelector scoreBoxSel (bodyReplaced h html p (document w))
            = Some (q, sw))
    (Ht : ToString score = Throw e) :
  enhanceSettled h o w =
    (Ok tt, mkWorld (bodyReplaced h html p (document w))
              (trace w ++ [parseCall h html;
                           Warn "[Forklift] Failed to fetch review JSON"])%list).
Proof.
  rewrite (enhanceSettled_resolved h o w data Hf).
  unfold catch. rewrite (enhanceThen_run h data body html w Hb Ha Hh), Hq.
  unfold bind at 1. unfold liftR at 1. rewrite Hs.
  unfold updatePageWithScore.
  destruct score; try contradiction;
    unfold bind, getDocument, liftR; cbn [document trace];
    rewrite Hbox, Ht; unfold enhanceCatch, warn, emit; cbn [document trace];
    now rewrite <- app_assoc.
Qed.

Lemma score_failure_after_body_witness :
  enhanceSettled (hostWith oddScorePayload) jsonResponse
    (mkWorld scenarioDocBar [FetchRequest])
  = (Ok tt,
     mkWorld (bodyReplaced (hostWith oddScorePayload) "<p>text</p>" [1; 2]
                scenarioDocBar)
       [FetchRequest; ParseFromString "<p>text</p>" "text/html";
        Warn "[Forklift] Failed to fetch review JSON"]).
Proof.
  exact (score_failure_after_body (hostWith oddScorePayload) jsonResponse
           (mkWorld scenarioDocBar [FetchRequest]) oddScorePayload
           (JArr [JStr "p"; JStr "text"]) (JObj [("toString", JNull)])
           "<p>text</p>"
           (TypeError "Cannot convert object to primitive value")
           [1; 2] [1; 1] bodyWrapper scoreBox
           eq_refl eq_refl eq_refl eq_refl eq_refl eq_refl I eq_refl eq_refl).
Defined.

Lemma updatePageWithScore_outcomes (score : JSValue) (w : World) :
  document (snd (updatePageWithScore score w)) = document w \/
  exists s q sw,
    querySelector scoreBoxSel (document w) = Some (q, sw) /\
    ToString score = Ok s /\
    document (snd (updatePageWithScore score w))
      = scoreRestored s (q ++ deepestLast sw)%list (document w).
Proof.
  unfold updatePageWithScore.
  destruct score; try (left; reflexivity);
    unfold bind, getDocument, liftR, modifyDocument; cbn [document trace];
    (destruct (querySelector scoreBoxSel (document w)) as [[q sw]|];
     [|left; reflexivity]);
    match goal with
    | |- context [ToString ?v] =>
        destruct (ToString v) as [str|e] eqn:T; [|left; reflexivity]
    end;
    right; exists str, q, sw; repeat split; reflexivity.
Qed.

Lemma enhanceThen_outcomes (h : Host) (data : JSValue) (w : World) :
  document (snd (enhanceThen h data w)) = document w \/
  exists html p bw,
    querySelector bodyWrapperSel (document w) = Some (p, bw) /\
    (document (snd (enhanceThen h data w))
       = bodyReplaced h html p (document w) \/
     exists s q sw,
       querySelector scoreBoxSel (bodyReplaced h html p (document w))
         = Some (q, sw) /\
       document (snd (enhanceThen h data w))
         = scoreRestored s (q ++ deepestLast sw)%list
             (bodyReplaced h html p (document w))).
Proof.
  destruct (andGet_ok data "review") as [r Hr].
  destruct (andGet_ok r "body") as [body Hbody].
  assert (Hb : reviewBody data = Ok body)
    by (unfold reviewBody; rewrite Hr; exact Hbody).
  destruct (isArray body) eqn:Ha.
  2:{ left. now rewrite (enhanceThen_not_array h data body w Hb Ha). }
  destruct (bodyArrayToHtml body) as [html|e] eqn:Hh.
  2:{ left. unfold enhanceThen.
      unfold bind at 1. unfold liftR at 1. rewrite Hb, Ha. cbn [negb].
      unfold bind at 1. unfold liftR at 1. now rewrite Hh. }
  rewrite (enhanceThen_run h data body html w Hb Ha Hh).
  destruct (querySelector bodyWrapperSel (document w)) as [[p bw]|] eqn:Hq;
    [|left; reflexivity].
  right. exists html, p, bw. split; [reflexivity|].
  destruct (reviewScore_ok data) as [score Hs].
  unfold bind at 1. unfold liftR at 1. rewrite Hs.
  set (w1 := mkWorld (bodyReplaced h html p (document w))
               (trace w ++ [parseCall h html])%list).
  destruct (updatePageWithScore_outcomes score w1)
    as [E | (s & q & sw & Hbox & _ & E)].
  - left. exact E.
  - right. exists s, q, sw. split; [exact Hbox | exact E].
Qed.

(** X21.  All that the script ever does to the page: after the request
    has ended the document is as it was, or the children of the body
    wrapper have been replaced, or in addition the text and the filter
    of the innermost last element of the score box have been set. *)
Theorem settle_touches_two_anchors (h : Host) (o : FetchOutcome) (w : World) :
  document (snd (enhanceSettled h o w)) = document w \/
  exists html p bw,
    querySelector bodyWrapperSel (document w) = Some (p, bw) /\
    (document (snd (enhanceSettled h o w))
       = bodyReplaced h html p (document w) \/
     exists s q sw,
       querySelector scoreBoxSel (bodyReplaced h html p (document w))
         = Some (q, sw) /\
       document (snd (enhanceSettled h o w))
         = scoreRestored s (q ++ deepestLast sw)%list
             (bodyReplaced h html p (document w))).
Proof.
  destruct (fst (fetchReviewJson h o w)) as [data|e] eqn:Hf.
  - rewrite (enhanceSettled_resolved h o w data Hf). unfold catch.
    pose proof (enhanceThen_outcomes h data w) as H.
    destruct (enhanceThen h data w) as [[u|e] w']; [exact H|].
    exact H.
  - left. destruct (rejection_reaches_catch h o w e Hf) as [t [E _]].
    now rewrite E.
Qed.

Lemma nth_error_updateNth_other {A} (f : A -> A) (l : list A) (i j : nat) :
  i <> j -> nth_error (updateNth i f l) j = nth_error l j.
Proof.
  revert i j. induction l as [|x l IH]; intros [|i] [|j] H; simpl;
    try reflexivity; try contradiction.
  apply IH. congruence.
Qed.

Lemma nth_error_updateNth_same {A} (f : A -> A) (l : list A) (i : nat) :
  nth_error (updateNth i f l) i = option_map f (nth_error l i).
Proof.
  revert i. induction l as [|x l IH]; intros [|i]; simpl; try reflexivity.
  apply IH.
Qed.

Lemma getAt_updateAt_disjoint (f : Node -> Node) (p r : Path) (n : Node) :
  disjointPaths p r = true -> getAt (updateAt f p n) r = getAt n r.
Proof.
  revert r n. induction p as [|i p IH]; intros [|j r] n H; simpl in H;
    try discriminate.
  destruct n as [d|d|t a st cs]; try reflexivity.
  simpl. destruct (Nat.eqb i j) eqn:E.
  - apply Nat.eqb_eq in E. subst j. rewrite nth_error_updateNth_same.
    destruct (nth_error cs i); simpl; [now apply IH | reflexivity].
  - apply Nat.eqb_neq in E. now rewrite nth_error_updateNth_other.
Qed.

Lemma disjointPaths_app (p d r : Path) :
  disjointPaths p r = true -> disjointPaths (p ++ d)%list r = true.
Proof.
  revert r. induction p as [|i p IH]; intros [|j r] H; simpl in *;
    try discriminate.
  destruct (Nat.eqb i j); [now apply IH | reflexivity].
Qed.

(** X22.  The two mutations stay inside their anchors.  Whatever the
    markup and the host, a node that lies outside the body wrapper is
    the same before and after the body replacement; and whatever the
    score, a node that lies outside the score box is the same before and
    after [updatePageWithScore]. *)
Theorem mutations_stay_inside (h : Host) (html : string) (score : JSValue)
    (w : World) (p q r : Path) (sw : Node)
    (Hp : disjointPaths p r = true)
    (Hbox : querySelector scoreBoxSel (document w) = Some (q, sw))
    (Hq : disjointPaths q r = true) :
  getAt (document (snd (replaceBody h html p w))) r = getAt (document w) r /\
  getAt (document (snd (updatePageWithScore score w))) r
    = getAt (document w) r.
Proof.
  split.
  - rewrite replaceBody_run. cbn [snd document]. unfold bodyReplaced.
    destruct (hostParse h html); [|reflexivity].
    now apply getAt_updateAt_disjoint.
  - destruct (updatePageWithScore_outcomes score w)
      as [E | (s & q' & sw' & Hbox' & _ & E)]; rewrite E; [reflexivity|].
    rewrite Hbox in Hbox'. inversion Hbox'; subst q' sw'.
    unfold scoreRestored.
    rewrite !getAt_updateAt_disjoint; auto using disjointPaths_app.
Qed.

Lemma mutations_stay_inside_witness :
  getAt (document (snd (replaceBody stubHost "" [1; 2]
                          (mkWorld scenarioDocBar [])))) [1; 0]
    = Some scoreCircle /\
  getAt (document (snd (updatePageWithScore (JNum (mkNum 78 1))
                          (mkWorld scenarioDocBar [])))) [1; 0]
    = Some scoreCircle.
Proof.
  exact (mutations_stay_inside stubHost "" (JNum (mkNum 78 1))
           (mkWorld scenarioDocBar []) [1; 2] [1; 1] [1; 0] scoreBox
           eq_refl eq_refl eq_refl).
Defined.

(** ** Score parser: what it returns *)

Lemma score_match_some (s g : string) :
  match regexMatch exactScoreRe s with
  | Some m => Some m
  | None => regexMatch boundedScoreRe s
  end = Some g ->
  exists pre post, TokenAt s pre g post.
Proof.
  destruct (regexMatch exactScoreRe s) as [m|] eqn:E.
  - intro H. inversion H; subst m.
    destruct (exact_match_sound s g E) as [-> Ht].
    exists "", "". unfold TokenAt. simpl. now rewrite string_app_nil_r.
  - intro B.
    destruct (search_some boundedScoreRe bounded_matched_prefix s None g B)
      as (a & rest & Ea & Hm & _).
    destruct (bounded_match_sound _ _ _ Hm) as (tok & Eg & Ht & Hl & Hr).
    apply string_app_cancel_r in Eg. subst tok.
    exists a, rest. now repeat split.
Qed.

Lemma score_match_none (s : string) :
  match regexMatch exactScoreRe s with
  | Some m => Some m
  | None => regexMatch boundedScoreRe s
  end = None ->
  forall pre tok post, ~ TokenAt s pre tok post.
Proof.
  destruct (regexMatch exactScoreRe s) as [m|] eqn:E; [discriminate|].
  intros B pre tok post (Es & Ht & Hl & Hr).
  apply (bounded_match_complete (lastOr None pre) tok post Ht Hl Hr).
  now apply (search_none boundedScoreRe s None B pre (tok ++ post)).
Qed.

Lemma parseScoreText_unfold (text : string) :
  parseScoreText text =
  match
    match regexMatch exactScoreRe (cleanedText text) with
    | Some m => Some m
    | None => regexMatch boundedScoreRe (cleanedText text)
    end
  with
  | None => None
  | Some g =>
      match parseFloat g with
      | None => None
      | Some n => if numLe zero n && numLe n ten then Some n else None
      end
  end.
Proof. reflexivity. Qed.

(** X23.  The parser invents nothing.  A number it returns is the value
    of a score token standing between word boundaries in the cleaned
    text, and lies between 0 and 10; and it returns [null] exactly when
    the cleaned text holds no such token. *)
Theorem parser_returns_token_values (text : string) :
  (forall n, parseScoreText text = Some n ->
     exists pre tok post,
       TokenAt (cleanedText text) pre tok post /\
       parseFloat tok = Some n /\
       numLe zero n = true /\ numLe n ten = true) /\
  (parseScoreText text = None <->
   ~ exists pre tok post, TokenAt (cleanedText text) pre tok post).
Proof.
  rewrite parseScoreText_unfold.
  destruct (match regexMatch exactScoreRe (cleanedText text) with
            | Some m => Some m
            | None => regexMatch boundedScoreRe (cleanedText text)
            end) as [g|] eqn:M.
  - destruct (score_match_some _ _ M) as (pre & post & Ht).
    destruct (token_value g (proj1 (proj2 Ht))) as (n0 & Hp & H0 & H10).
    rewrite Hp, H0, H10. cbn [andb]. split.
    + intros n Hn. inversion Hn; subst n0. now exists pre, g, post.
    + split; [discriminate|]. intro H. exfalso. apply H.
      now exists pre, g, post.
  - split; [discriminate|]. split; [|reflexivity].
    intros _ (pre & tok & post & Ht).
    now apply (score_match_none _ M pre tok post).
Qed.

Lemma parser_returns_token_values_witness :
  exists pre tok post,
    TokenAt (cleanedText "v1.2.3") pre tok post /\
    parseFloat tok = Some (mkNum 23 1) /\
    numLe zero (mkNum 23 1) = true /\ numLe (mkNum 23 1) ten = true.
Proof.
  exact (proj1 (parser_returns_token_values "v1.2.3") (mkNum 23 1) eq_refl).
Defined.

Lemma zero_token (tok : string) (n : Num) :
  scoreToken tok = true -> parseFloat tok = Some n -> numEq n zero = true ->
  tok = "0.0".
Proof.
  intros Ht Hp Hz.
  destruct (scoreToken_cases tok Ht) as [->|[->|(d1 & d2 & H1 & H2 & ->)]].
  - inversion Hp; subst. discriminate Hz.
  - inversion Hp; subst. discriminate Hz.
  - apply digit_cases in H1. apply digit_cases in H2. simpl in H1, H2.
    repeat (destruct H1 as [<-|H1]); try contradiction;
      repeat (destruct H2 as [<-|H2]); try contradiction;
      try reflexivity; vm_compute in Hp; inversion Hp; subst;
      vm_compute in Hz; discriminate Hz.
Qed.

(** X24.  The score signal of the detector is the placeholder alone: the
    parser returns the number 0 only where the token it read is "0.0",
    and so [isPaywalled], where no bar link is on the page, holds only
    if the score element shows that token. *)
Theorem zero_score_is_the_placeholder (pathname : string) (doc : Node) :
  (forall text n, parseScoreText text = Some n -> numEq n zero = true ->
     exists pre post, TokenAt (cleanedText text) pre "0.0" post) /\
  (querySelector barLinkSel doc = None -> isPaywalled pathname doc = true ->
   isAlbumReviewPage pathname = true /\
   exists p el pre post,
     querySelector scoreCircleSel doc = Some (p, el) /\
     TokenAt (cleanedText (trim (textContent el))) pre "0.0" post).
Proof.
  assert (Hz : forall text n, parseScoreText text = Some n ->
                 numEq n zero = true ->
                 exists pre post, TokenAt (cleanedText text) pre "0.0" post).
  { intros text n Hn Hzero. rewrite parseScoreText_unfold in Hn.
    destruct (match regexMatch exactScoreRe (cleanedText text) with
              | Some m => Some m
              | None => regexMatch boundedScoreRe (cleanedText text)
              end) as [g|] eqn:M; [|discriminate].
    destruct (score_match_some _ _ M) as (pre & post & Ht).
    destruct (parseFloat g) as [n0|] eqn:Hp; [|discriminate].
    destruct (numLe zero n0 && numLe n0 ten); [|discriminate].
    inversion Hn; subst n0.
    rewrite (zero_token g n (proj1 (proj2 Ht)) Hp Hzero) in Ht.
    now exists pre, post. }
  split; [exact Hz|].
  intros Hno Hp. unfold isPaywalled in Hp. rewrite Hno in Hp. cbn [isSome] in Hp.
  unfold getPitchforkScore in Hp.
  destruct (isAlbumReviewPage pathname); [|discriminate]. cbn [negb] in Hp.
  split; [reflexivity|].
  destruct (querySelector scoreCircleSel doc) as [[p el]|]; [|discriminate].
  destruct (parseScoreText (trim (textContent el))) as [n|] eqn:Hn;
    [|discriminate].
  destruct (numEq n zero) eqn:Hzero; [|discriminate].
  destruct (Hz _ n Hn Hzero) as (pre & post & Ht).
  now exists p, el, pre, post.
Qed.

Lemma zero_score_is_the_placeholder_witness :
  exists pre post, TokenAt (cleanedText "Score 0.0 ") pre "0.0" post.
Proof.
  exact (proj1 (zero_score_is_the_placeholder scenarioPath scenarioDoc)
           "Score 0.0 " zero eq_refl eq_refl).
Defined.

(** ** Score parser: white space *)

Lemma trimStart_collapse (b : bool) (s : string) :
  trimStart (collapseFrom b s) = collapseFrom false (trimStart s).
Proof.
  revert b. induction s as [|c s IH]; intro b; [reflexivity|].
  cbn [collapseFrom trimStart]. destruct (isSpace c) eqn:E.
  - destruct b; [apply IH|]. cbn [trimStart].
    change (isSpace " ") with true. cbv iota. apply IH.
  - cbn [trimStart collapseFrom]. now rewrite E.
Qed.

Lemma trimEnd_has_ink (s t : string) :
  trimEnd s = t -> t <> "" -> allChars isSpace t = false.
Proof.
  revert t. induction s as [|c s IH]; intros t H Hne; simpl in H.
  - now subst t.
  - destruct (trimEnd s) as [|x u] eqn:E.
    + destruct (isSpace c) eqn:Ec; [now subst t|].
      subst t. simpl. now rewrite Ec.
    + subst t.
      assert (Hu : allChars isSpace (String x u) = false)
        by (apply IH; [reflexivity | discriminate]).
      change (allChars isSpace (String c (String x u)))
        with (isSpace c && allChars isSpace (String x u)).
      rewrite Hu. apply andb_false_r.
Qed.

Lemma collapse_empty (b : bool) (t : string) :
  collapseFrom b t = "" -> allChars isSpace t = true.
Proof.
  revert b. induction t as [|c t IH]; intros b H; [reflexivity|].
  cbn [collapseFrom] in H. cbn [allChars].
  destruct (isSpace c); [|discriminate].
  destruct b; [|discriminate]. now apply (IH true).
Qed.

Lemma collapseFrom_cons (b : bool) (c : ascii) (s : string) :
  collapseFrom b (String c s) =
  if isSpace c
  then (if b then collapseFrom true s else String " " (collapseFrom true s))
  else String c (collapseFrom false s).
Proof. reflexivity. Qed.

Lemma trimEnd_cons (c : ascii) (s : string) :
  trimEnd (String c s) =
  match trimEnd s with
  | EmptyString => if isSpace c then EmptyString else String c EmptyString
  | t => String c t
  end.
Proof. reflexivity. Qed.

Lemma trimEnd_collapse (b : bool) (s : string) :
  trimEnd (collapseFrom b s) = collapseFrom b (trimEnd s).
Proof.
  revert b. induction s as [|c s IH]; intro b; [reflexivity|].
  rewrite trimEnd_cons, collapseFrom_cons.
  destruct (trimEnd s) as [|x u] eqn:E.
  - destruct (isSpace c) eqn:Ec.
    + destruct b; [now rewrite IH|]. rewrite trimEnd_cons, IH. reflexivity.
    + rewrite trimEnd_cons, IH, collapseFrom_cons, Ec. reflexivity.
  - rewrite collapseFrom_cons.
    destruct (isSpace c) eqn:Ec.
    + assert (Hink : collapseFrom true (String x u) <> "").
      { intro H. apply collapse_empty in H.
        rewrite (trimEnd_has_ink s (String x u) E) in H; [discriminate H|].
        discriminate. }
      destruct b; [now rewrite IH|].
      rewrite trimEnd_cons, IH.
      destruct (collapseFrom true (String x u)); [contradiction|reflexivity].
    + rewrite trimEnd_cons, IH.
      assert (Hink : collapseFrom false (String x u) <> "").
      { rewrite collapseFrom_cons. destruct (isSpace x); discriminate. }
      destruct (collapseFrom false (String x u)); [contradiction|reflexivity].
Qed.

Lemma trimEnd_idempotent (s : string) : trimEnd (trimEnd s) = trimEnd s.
Proof.
  induction s as [|c s IH]; [reflexivity|]. cbn [trimEnd].
  destruct (trimEnd s) as [|x u] eqn:E.
  - destruct (isSpace c) eqn:Ec; [reflexivity|]. simpl. now rewrite Ec.
  - cbn [trimEnd]. cbn [trimEnd] in IH. now rewrite IH.
Qed.

Lemma trimStart_of_trim (s : string) : trimStart (trim s) = trim s.
Proof.
  unfold trim. induction s as [|c s IH]; [reflexivity|].
  cbn [trimStart]. destruct (isSpace c) eqn:Ec; [exact IH|].
  rewrite trimEnd_cons.
  destruct (trimEnd s); rewrite ?Ec; cbn [trimStart]; now rewrite Ec.
Qed.

Lemma trim_idempotent (s : string) : trim (trim s) = trim s.
Proof.
  unfold trim at 1. rewrite trimStart_of_trim.
  unfold trim. apply trimEnd_idempotent.
Qed.

Lemma cleanedText_trim (text : string) :
  cleanedText text = collapseSpaces (trim text).
Proof.
  unfold cleanedText, collapseSpaces, trim.
  now rewrite trimStart_collapse, trimEnd_collapse.
Qed.

(** X25.  White space around the displayed text is immaterial: trimming
    before the parser, as [getPitchforkScore] does, changes nothing, and
    the text the patterns are matched against is the trimmed text with
    its runs of white space collapsed. *)
Theorem parser_ignores_outer_space (text : string) :
  cleanedText text = collapseSpaces (trim text) /\
  parseScoreText (trim text) = parseScoreText text.
Proof.
  split; [apply cleanedText_trim|].
  rewrite !parseScoreText_unfold.
  now rewrite (cleanedText_trim (trim text)), trim_idempotent,
    <- cleanedText_trim.
Qed.

(** ** Reading the payload *)

(** X26.  Reading the payload never raises: whatever value the request
    resolved with, the guarded chains that read [review.body] and the
    score yield a value. *)
Theorem payload_reads_never_raise (data : JSValue) :
  (exists body, reviewBody data = Ok body) /\
  (exists score, reviewScore data = Ok score).
Proof.
  split; [|apply reviewScore_ok].
  unfold reviewBody. destruct (andGet_ok data "review") as [r ->]. simpl.
  apply andGet_ok.
Qed.

Lemma andGet_falsy (v : JSValue) (k : string) :
  truthy v = false -> andGet v k = Ok v.
Proof. intro H. unfold andGet. now rewrite H. Qed.

(** X27.  A falsy link of the score chain is itself taken for the score.
    When [review.headerProps] (or [musicRating]) is falsy the chain
    yields that value, and unless it is [null] or [undefined] the score
    restore writes its string form, such as "false", "0" or the empty
    text, into the score box. *)
Theorem falsy_link_becomes_score (data r hp : JSValue) (s : string)
    (w : World) (q : Path) (sw : Node)
    (Hr : andGet data "review" = Ok r)
    (Hhp : andGet r "headerProps" = Ok hp)
    (Hf : truthy hp = false)
    (Hn : match hp with JUndefined | JNull => False | _ => True end)
    (Hs : ToString hp = Ok s)
    (Hq : querySelector scoreBoxSel (document w) = Some (q, sw)) :
  reviewScore data = Ok hp /\
  (score <- liftR (reviewScore data) ;; updatePageWithScore score) w =
    (Ok tt, mkWorld (scoreRestored s (q ++ deepestLast sw)%list (document w))
              (trace w)).
Proof.
  assert (E : reviewScore data = Ok hp).
  { unfold reviewScore. rewrite Hr. cbn [rbind]. rewrite Hhp. cbn [rbind].
    rewrite (andGet_falsy hp "musicRating" Hf). cbn [rbind].
    now apply andGet_falsy. }
  split; [exact E|].
  unfold bind at 1. unfold liftR at 1. rewrite E.
  now apply updatePageWithScore_found.
Qed.

Lemma falsy_link_becomes_score_witness :
  reviewScore falseHeaderPayload = Ok (JBool false) /\
  (score <- liftR (reviewScore falseHeaderPayload) ;; updatePageWithScore score)
    (mkWorld scenarioDocBar []) =
    (Ok tt, mkWorld (scoreRestored "false" [1; 1; 1; 1] scenarioDocBar) []).
Proof.
  exact (falsy_link_becomes_score falseHeaderPayload
           (JObj [("body", JArr [JStr "p"; JStr "text"]);
                  ("headerProps", JBool false)])
           (JBool false) "false" (mkWorld scenarioDocBar []) [1; 1] scoreBox
           eq_refl eq_refl eq_refl I eq_refl eq_refl).
Defined.

(** ** Escaping in the rendered markup *)

Lemma renderAttr_escapes (k : string) (v : JSValue) (s : string) :
  ToString v = Ok s ->
  renderAttr (k, v) = Ok (k ++ "=" ++ quoted (substChars attrEntity s)).
Proof.
  intro H. unfold renderAttr. cbn [fst snd]. now rewrite H, escapeAttr_subst.
Qed.

Lemma app_cons_not_empty (a : string) (c : ascii) (b : string) :
  String.eqb (a ++ String c b) "" = false.
Proof. now destruct a. Qed.

Lemma render_one_attribute (t k : string) (v : JSValue) (s : string)
    (children : list JSValue) :
  isAdNode (JStr t) (JObj [(k, v)]) = false ->
  String.eqb k "isExternal" = false ->
  ToString v = Ok s ->
  bodyArrayToHtml (JArr (JStr t :: JObj [(k, v)] :: children)) =
  match childMarkup children with
  | Throw e => Throw e
  | Ok m =>
      Ok ("<" ++ t ++ " " ++ k ++ "=" ++ quoted (substChars attrEntity s)
          ++ ">" ++ m ++ "</" ++ t ++ ">")
  end.
Proof.
  intros Had Hk Hs. cbn [bodyArrayToHtml]. rewrite renderElement_children, Had.
  cbn [filter fst]. rewrite Hk. cbn [negb map sequence].
  rewrite (renderAttr_escapes k v s Hs). unfold join. cbn [String.concat].
  change (k ++ "=" ++ quoted (substChars attrEntity s))
    with (k ++ String "=" (quoted (substChars attrEntity s))).
  rewrite app_cons_not_empty. cbn [negb].
  destruct (childMarkup children) as [m|e]; [|reflexivity].
  f_equal. unfold quoted.
  repeat (progress (rewrite ?string_app_assoc; simpl)). reflexivity.
Qed.

(** C8.  On every string [escapeText] replaces each [&], [<] and [>] by
    its entity and leaves every other character as it is, and
    [escapeAttr] does the same and also replaces each double quote by
    [&quot;].  The reconstructor renders with them: a string leaf is
    its text so escaped, and an attribute value is the string form of
    the value escaped as an attribute, between double quotes after the
    key.  So it is for the sample text of the specification, as a text
    and as an attribute value. *)
Theorem escaping_is_characterwise :
  (forall s, escapeText s = substChars textEntity s) /\
  (forall s, escapeAttr s = substChars attrEntity s) /\
  (forall c, textEntity c =
     if Ascii.eqb c "&" then "&amp;"
     else if Ascii.eqb c "<" then "&lt;"
     else if Ascii.eqb c ">" then "&gt;"
     else String c "") /\
  (forall c, attrEntity c =
     if Ascii.eqb c dquote then "&quot;" else textEntity c) /\
  escapeText scriptSample
    = "&lt;script&gt;&amp;" ++ String dquote "&lt;/script&gt;" /\
  escapeAttr scriptSample = "&lt;script&gt;&amp;&quot;&lt;/script&gt;" /\
  (forall s, bodyArrayToHtml (JStr s) = Ok (substChars textEntity s)) /\
  (forall k v s, ToString v = Ok s ->
     renderAttr (k, v) = Ok (k ++ "=" ++ quoted (substChars attrEntity s))) /\
  (forall t k v s children,
     isAdNode (JStr t) (JObj [(k, v)]) = false ->
     String.eqb k "isExternal" = false ->
     ToString v = Ok s ->
     bodyArrayToHtml (JArr (JStr t :: JObj [(k, v)] :: children)) =
     match childMarkup children with
     | Throw e => Throw e
     | Ok m =>
         Ok ("<" ++ t ++ " " ++ k ++ "=" ++ quoted (substChars attrEntity s)
             ++ ">" ++ m ++ "</" ++ t ++ ">")
     end) /\
  bodyArrayToHtml
    (JArr [JStr "p"; JObj [("title", JStr scriptSample)]; JStr scriptSample])
  = Ok ("<p title=" ++ quoted "&lt;script&gt;&amp;&quot;&lt;/script&gt;"
        ++ ">&lt;script&gt;&amp;" ++ String dquote "&lt;/script&gt;</p>").
Proof.
  split; [exact escapeText_subst|].
  split; [exact escapeAttr_subst|].
  do 4 (split; [reflexivity|]).
  split; [intro s; cbn [bodyArrayToHtml]; now rewrite escapeText_subst|].
  split; [exact renderAttr_escapes|].
  split; [exact render_one_attribute|].
  reflexivity.
Qed.

Lemma escaping_is_characterwise_witness :
  renderAttr ("href", JStr "x&y")
    = Ok ("href=" ++ quoted (substChars attrEntity "x&y")) /\
  bodyArrayToHtml (JArr (JStr "a" :: JObj [("href", JStr "x&y")] :: [JStr "<"]))
    = Ok ("<a href=" ++ quoted "x&amp;y" ++ ">&lt;</a>").
Proof.
  destruct escaping_is_characterwise as (_ & _ & _ & _ & _ & _ & _ & H8 & H9 & _).
  split.
  - exact (H8 "href" (JStr "x&y") "x&y" eq_refl).
  - exact (H9 "a" "href" (JStr "x&y") "x&y" [JStr "<"] eq_refl eq_refl eq_refl).
Defined.
